(** * Phigaro command-line driver ([phigaro/cli/batch.py])

    A shallow embedding of the batch driver: the substitution parser
    [parse_substitute_output], the task factory [create_task], the scratch
    directory sweeper [clean_fold] and the driver [main], followed by the
    properties established about them. *)

From Stdlib Require Import ZArith Ascii String List Bool Lia.
From stdpp Require Import base gmap strings list fin_maps.

Local Open Scope string_scope.
Local Open Scope list_scope.

(** ** Python values the driver manipulates *)

Module Py.

(** An exception is identified by the name of its class; [exit(n)] raises
    [SystemExit] carrying the status. *)
Inductive exn : Type :=
| Exn (cls : string)
| SystemExit (code : Z).

Definition ValueError : exn := Exn "ValueError".
Definition TypeError : exn := Exn "TypeError".
Definition KeyError : exn := Exn "KeyError".
Definition OSError : exn := Exn "OSError".

Inductive result (A : Type) : Type :=
| Ok (a : A)
| Raise (e : exn).
Arguments Ok {A} a.
Arguments Raise {A} e.

(** [s.split(sep)] for a one-character separator: the string is cut at
    every occurrence of [sep]; a string with [n] separators gives [n+1]
    pieces. *)
Fixpoint split (sep : ascii) (s : string) : list string :=
  match s with
  | EmptyString => [EmptyString]
  | String c s' =>
      if Ascii.eqb c sep then EmptyString :: split sep s'
      else match split sep s' with
           | p :: ps => String c p :: ps
           | [] => [String c EmptyString]
           end
  end.

(** [c in s] for a character. *)
Fixpoint contains (c : ascii) (s : string) : bool :=
  match s with
  | EmptyString => false
  | String d s' => Ascii.eqb d c || contains c s'
  end.

(** [s.lower()] on ASCII text. *)
Definition lower_ascii (c : ascii) : ascii :=
  let n := nat_of_ascii c in
  if (65 <=? n)%nat && (n <=? 90)%nat then ascii_of_nat (n + 32) else c.

Fixpoint lower (s : string) : string :=
  match s with
  | EmptyString => EmptyString
  | String c s' => String (lower_ascii c) (lower s')
  end.

End Py.
Import Py.

Definition colon : ascii := ":"%char.

(** ** Tasks *)

(** The four stage classes imported by the driver. *)
Inductive task_class : Type :=
| PreprocessTask
| ProdigalTask
| HmmerTask
| RunPhigaroTask.

(** Modelled from the spec: the class [DummyTask] of
    [phigaro.batch.task.dummy], which is not part of the sources at hand; it
    is "constructed directly from a user-given file path; its output()
    immediately returns that path; run() is a no-op; clean() is a no-op",
    and it is built as [DummyTask(path, task_name)]. A task object is either
    such a dummy or an instance of a stage class, built from the positional
    and keyword arguments handed to its constructor. *)
Inductive task : Type :=
| Instance (cls : task_class) (args : list (option string * arg))
| DummyTask (output : string) (task_name : string)
with arg : Type :=
| AStr (s : string)
| ATask (t : task).

(** Modelled from the spec: [DummyTask.output()]; only called on the values
    of the substitution mapping, which are all dummies. *)
Definition dummy_output (t : task) : string :=
  match t with
  | DummyTask output _ => output
  | Instance _ _ => EmptyString
  end.

(** ** [parse_substitute_output] *)

(** [task_name, output = sub.split(":")]: unpacking anything but exactly two
    pieces raises [ValueError]. *)
Definition unpack2 (parts : list string) : result (string * string) :=
  match parts with
  | [a; b] => Ok (a, b)
  | _ => Raise ValueError
  end.

(** The body of the [for sub in subs] loop, threading the dictionary [res]. *)
Fixpoint parse_loop (subs : list string) (res : gmap string task)
  : result (gmap string task) :=
  match subs with
  | [] => Ok res
  | sub :: subs' =>
      match unpack2 (split colon sub) with
      | Raise e => Raise e
      | Ok (task_name, output) =>
          parse_loop subs' (<[task_name := DummyTask output task_name]> res)
      end
  end.

(** [subs] is [None] when no [-S] option was given ([action='append']). *)
Definition parse_substitute_output (subs : option (list string))
  : result (gmap string task) :=
  let subs := match subs with
              | None | Some [] => []
              | Some l => l
              end in
  parse_loop subs ∅.

(** ** The scratch directory as a tree *)

(** A directory lists its sub-directories, in the order [os.scandir] reports
    them, and the names of its plain files. *)
#[warnings="-register-all"]
Inductive dir : Type :=
| Dir (subdirs : list (string * dir)) (files : list string).

Definition subdirs (d : dir) : list (string * dir) :=
  match d with Dir subs _ => subs end.

Definition files (d : dir) : list string :=
  match d with Dir _ fs => fs end.

(** A path is the list of its components: [os.path.join(root, name)] is
    [root ++ [name]]. *)
Definition path : Type := list string.

Fixpoint assoc (n : string) (l : list (string * dir)) : option dir :=
  match l with
  | [] => None
  | (m, d) :: l' => if String.eqb n m then Some d else assoc n l'
  end.

Fixpoint remove_entry (n : string) (l : list (string * dir)) : list (string * dir) :=
  match l with
  | [] => []
  | (m, d) :: l' => if String.eqb n m then l' else (m, d) :: remove_entry n l'
  end.

Fixpoint replace_entry (n : string) (d' : dir) (l : list (string * dir))
  : list (string * dir) :=
  match l with
  | [] => []
  | (m, d) :: l' =>
      if String.eqb n m then (m, d') :: l' else (m, d) :: replace_entry n d' l'
  end.

(** The directory found at a path, if any. *)
Fixpoint lookup_path (p : path) (d : dir) : option dir :=
  match p with
  | [] => Some d
  | n :: p' =>
      match assoc n (subdirs d) with
      | Some s => lookup_path p' s
      | None => None
      end
  end.

(** Number of plain files below a directory, at any depth. *)
Fixpoint count_files (d : dir) : nat :=
  match d with
  | Dir subs fs =>
      length fs +
      (fix sum (l : list (string * dir)) : nat :=
         match l with
         | [] => 0
         | (_, s) :: l' => count_files s + sum l'
         end) subs
  end.

(** Entry names are unique inside every directory. *)
Fixpoint wf_dir (d : dir) : bool :=
  match d with
  | Dir subs _ =>
      bool_decide (NoDup (map fst subs)) &&
      (fix all (l : list (string * dir)) : bool :=
         match l with
         | [] => true
         | (_, s) :: l' => wf_dir s && all l'
         end) subs
  end.

(** [os.rmdir(p)]: the directory must exist and be empty, otherwise
    [OSError] is raised and nothing changes. *)
Fixpoint rmdir (p : path) (d : dir) {struct p} : result dir :=
  match p with
  | [] => Raise OSError
  | [n] =>
      match assoc n (subdirs d) with
      | Some (Dir [] []) => Ok (Dir (remove_entry n (subdirs d)) (files d))
      | _ => Raise OSError
      end
  | n :: p' =>
      match assoc n (subdirs d) with
      | Some s =>
          match rmdir p' s with
          | Ok s' => Ok (Dir (replace_entry n s' (subdirs d)) (files d))
          | Raise e => Raise e
          end
      | None => Raise OSError
      end
  end.

(** [os.walk(top, topdown=False)] on a directory: the triples
    [(root, dirs, files)] of every directory below [top], children before
    their parent, each directory's children in listing order. *)
Fixpoint walk (top : path) (d : dir) : list (path * list string * list string) :=
  match d with
  | Dir subs fs =>
      (fix walk_dirs (l : list (string * dir)) :=
         match l with
         | [] => []
         | (n, s) :: l' => walk (top ++ [n]) s ++ walk_dirs l'
         end) subs
      ++ [(top, map fst subs, fs)]
  end.

(** ** Configuration values, command-line arguments *)

Inductive pyval : Type :=
| VNone
| VBool (b : bool)
| VInt (z : Z)
| VStr (s : string).

(** Python truth value. *)
Definition truthy (v : pyval) : bool :=
  match v with
  | VNone => false
  | VBool b => b
  | VInt z => negb (z =? 0)%Z
  | VStr s => negb (String.eqb s EmptyString)
  end.

Definition is_not_None (v : pyval) : bool :=
  match v with VNone => false | _ => true end.

(** The loaded YAML document: sections of options. *)
Abbreviation Config := (gmap string (gmap string pyval)).

(** The namespace returned by [parser.parse_args()]. [output] is [False]
    unless [-o] is given, and then a string; [substitute_output] is [None]
    unless [-S] is given. *)
Record Args : Type := {
  fasta_file : string;
  config : string;
  verbose : bool;
  print_vogs : bool;
  extension : list string;
  output : pyval;
  not_open : bool;
  threads : Z;
  no_cleanup : bool;
  substitute_output : option (list string);
  delete_shorts : bool;
  mode : string
}.

(** ** Effects *)

(** What a run does to the outside world, in order; a call into code outside
    the driver is recorded with its outcome. *)
Inductive event : Type :=
| Print (msg : string)
| LogInfo (msg : string)
| Open (name : string) (r : result (list string))
| YamlLoad (r : result Config)
| Makedirs (fold : string) (r : result unit)
| ContextInitialize (sample : string) (cfg : Config) (nthreads : Z) (r : result unit)
| Construct (t : task)
| RunTasksChain (tasks : list task) (r : result string)
| WriteFile (name : string) (lines : list string) (r : result unit)
| WriteStdout (lines : list string)
| CloseStdout
| Clean (t : task) (r : result unit)
| Rmdir (p : path) (r : result unit).

(** A computation reads and updates the tree of the working directory, may
    raise, and emits events. *)
Definition M (A : Type) : Type := dir -> result A * dir * list event.

Definition ret {A} (a : A) : M A := fun d => (Ok a, d, []).

Definition raise {A} (e : exn) : M A := fun d => (Raise e, d, []).

Definition bind {A B} (m : M A) (f : A -> M B) : M B :=
  fun d =>
    match m d with
    | (Ok a, d1, evs1) =>
        match f a d1 with
        | (r, d2, evs2) => (r, d2, evs1 ++ evs2)
        end
    | (Raise e, d1, evs1) => (Raise e, d1, evs1)
    end.

Declare Scope py_scope.
Delimit Scope py_scope with py.
Notation "x <- m ;; k" := (bind m (fun x => k))
  (at level 100, m at next level, right associativity) : py_scope.
Notation "m ;; k" := (bind m (fun _ => k))
  (at level 100, right associativity) : py_scope.
Local Open Scope py_scope.

Definition emit (e : event) : M unit := fun d => (Ok tt, d, [e]).

Definition print (msg : string) : M unit := emit (Print msg).

(** [exit(code)] raises [SystemExit]. *)
Definition exit {A} (code : Z) : M A := raise (SystemExit code).

(** A call that does not touch the working directory. *)
Definition call_pure {A} (r : result A) (ev : result A -> event) : M A :=
  fun d => (r, d, [ev r]).

(** A call that may read and change the working directory. *)
Definition call_fs {A} (f : dir -> result A * dir) (ev : result A -> event) : M A :=
  fun d => let '(r, d') := f d in (r, d', [ev r]).

Definition lift {A} (r : result A) : M A := fun d => (r, d, []).

(** [for x in l: body(x)]. *)
Fixpoint for_each {A} (body : A -> M unit) (l : list A) : M unit :=
  match l with
  | [] => ret tt
  | x :: l' => body x ;; for_each body l'
  end.

(** What the driver calls outside of itself: the standard library, PyYAML,
    and the modules of the package that define the context, the task
    classes and the chain runner. *)
Record Env : Type := {
  os_path_exists : string -> bool;
  os_path_isdir : string -> bool;
  posix_dirname : string -> string;
  makedirs : string -> dir -> result unit * dir;
  open_read : string -> dir -> result (list string);
  open_write : string -> list string -> dir -> result unit * dir;
  yaml_load : list string -> result Config;
  uuid4_hex : string;
  sample_name : string -> string;
  Context_initialize : string -> Config -> Z -> result unit;
  class_task_name : task_class -> string;
  dummy_task_name : string -> string -> string;
  run_tasks_chain : list task -> dir -> result string * dir;
  real_clean : task -> dir -> result unit * dir
}.

(** ** [clean_fold] *)

Definition os_rmdir (p : path) : M unit :=
  fun d =>
    match rmdir p d with
    | Ok d' => (Ok tt, d', [Rmdir p (Ok tt)])
    | Raise e => (Raise e, d, [Rmdir p (Raise e)])
    end.

(** The triples [os.walk(top, topdown=False)] yields for a directory of the
    working directory; a missing [top] yields nothing. A directory is listed
    before its children are walked, and the loop of [clean_fold] removes
    only directories whose own walk is over, so the triples are those of the
    tree as it stands when the walk starts. *)
Definition os_walk (top : string) : M (list (path * list string * list string)) :=
  fun d =>
    match assoc top (subdirs d) with
    | Some s => (Ok (walk [top] s), d, [])
    | None => (Ok [], d, [])
    end.

(** [for name in dirs: os.rmdir(os.path.join(root, name))]. *)
Definition rmdir_each (root : path) (dirs : list string) : M unit :=
  for_each (fun name => os_rmdir (root ++ [name])) dirs.

(** One round of the loop over the walk: a file in [files] clears the flag,
    and the sub-directories are removed while the flag is still set. *)
Definition clean_fold_body (is_empty : bool)
    (entry : path * list string * list string) : M bool :=
  let '(root, dirs, fs) := entry in
  let is_empty := match fs with [] => is_empty | _ :: _ => false end in
  if is_empty then rmdir_each root dirs ;; ret is_empty
  else ret is_empty.

Fixpoint clean_fold_loop (entries : list (path * list string * list string))
    (is_empty : bool) : M bool :=
  match entries with
  | [] => ret is_empty
  | entry :: entries' =>
      is_empty' <- clean_fold_body is_empty entry ;;
      clean_fold_loop entries' is_empty'
  end.

Definition clean_fold : M unit :=
  entries <- os_walk "proc" ;;
  is_empty <- clean_fold_loop entries true ;;
  if is_empty then os_rmdir ["proc"] else ret tt.

Section Driver.

Variable E : Env.

(** ** [create_task] *)

(** [task.task_name]: a class attribute of the stage classes; for a dummy,
    an attribute that its class, which is outside of the sources at hand,
    derives from the arguments of the constructor. [create_task] reads it
    on the instance of a stage class only. *)
Definition task_name (t : task) : string :=
  match t with
  | Instance cls _ => class_task_name E cls
  | DummyTask output name => dummy_task_name E output name
  end.

Definition create_task (substitutions : gmap string task)
    (cls : task_class) (args : list (option string * arg)) : M task :=
  let task := Instance cls args in
  emit (Construct task) ;;
  match substitutions !! task_name task with
  | Some dummy =>
      print ("Substituting output for " +:+ task_name task +:+ ": "
             +:+ dummy_output dummy) ;;
      ret dummy
  | None => ret task
  end.

(** Modelled from the spec: [DummyTask.clean()], "a no-op (never deletes
    user-owned files)". *)
Definition dummy_clean (t : task) : M unit := emit (Clean t (Ok tt)).

(** [t.clean()]. *)
Definition clean (t : task) : M unit :=
  match t with
  | DummyTask _ _ => dummy_clean t
  | Instance _ _ => call_fs (real_clean E t) (Clean t)
  end.

(** ** [main], from the parsed arguments on *)

Definition getitem {V} (m : gmap string V) (k : string) : M V :=
  match m !! k with
  | Some v => ret v
  | None => raise KeyError
  end.

(** [os.path.dirname(v)]: anything but a string is a [TypeError]. *)
Definition os_path_dirname (v : pyval) : M string :=
  match v with
  | VStr s => ret (posix_dirname E s)
  | _ => raise TypeError
  end.

(** [v + s] for a string [s]. *)
Definition add_str (v : pyval) (s : string) : M string :=
  match v with
  | VStr s0 => ret (s0 +:+ s)
  | _ => raise TypeError
  end.

(** Lines 106 to 115: the options written into [config['phigaro']]. *)
Definition set_options (a : Args) (ext : list string)
    (phigaro : gmap string pyval) : gmap string pyval :=
  <["mode" := VStr (mode a)]>
  (<["bed" := VBool (bool_decide ("bed" ∈ ext))]>
  (<["gff" := VBool (bool_decide ("gff" ∈ ext))]>
  (<["delete_shorts" := VBool (delete_shorts a)]>
  (<["uuid" := VStr (uuid4_hex E)]>
  (<["output" := output a]>
  (<["not_open" := VBool (not_open a)]>
  (<["no_html" := VBool (negb (bool_decide ("html" ∈ ext)))]>
  (<["filename" := VStr (fasta_file a)]>
  (<["print_vogs" := VBool (print_vogs a)]> phigaro))))))))).

Definition main (a : Args) : M unit :=
  (* 92-95 *)
  (if negb (os_path_exists E (config a)) then
     print "Please, create config file using phigaro-setup script" ;;
     exit 1
   else ret tt) ;;
  (* 97-100 *)
  let ext := map lower (extension a) in
  (if negb (truthy (output a)) && negb (bool_decide (ext = ["stdout"])) then
     print "Error! Argument -o/--output is required or change the type of the output to stdout." ;;
     exit 1
   else ret tt) ;;
  (* 102-104 *)
  f <- call_fs (fun d => (open_read E (config a) d, d)) (Open (config a)) ;;
  emit (LogInfo ("Using config file: " +:+ config a)) ;;
  cfg <- call_pure (yaml_load E f) YamlLoad ;;
  (* 106-115 *)
  phigaro <- getitem cfg "phigaro" ;;
  let phigaro := set_options a ext phigaro in
  let cfg := <["phigaro" := phigaro]> cfg in
  (* 117-121 *)
  let filename := fasta_file a in
  let sample := sample_name E filename +:+ "-" +:+ uuid4_hex E in
  (* 123-126 *)
  out <- getitem phigaro "output" ;;
  (if is_not_None out then
     fold <- os_path_dirname out ;;
     if negb (String.eqb fold "") && negb (os_path_isdir E fold) then
       call_fs (makedirs E fold) (Makedirs fold)
     else ret tt
   else ret tt) ;;
  (* 128-132 *)
  call_pure (Context_initialize E sample cfg (threads a))
            (ContextInitialize sample cfg (threads a)) ;;
  (* 134 *)
  substitutions <- lift (parse_substitute_output (substitute_output a)) ;;
  (* 136-150 *)
  preprocess_task <- create_task substitutions PreprocessTask
                       [(None, AStr filename)] ;;
  prodigal_task <- create_task substitutions ProdigalTask
                     [(Some "preprocess_task", ATask preprocess_task)] ;;
  hmmer_task <- create_task substitutions HmmerTask
                  [(Some "prodigal_task", ATask prodigal_task)] ;;
  run_phigaro_task <- create_task substitutions RunPhigaroTask
                        [(Some "prodigal_task", ATask prodigal_task);
                         (Some "hmmer_task", ATask hmmer_task)] ;;
  (* 152-158 *)
  let tasks := [preprocess_task; prodigal_task; hmmer_task; run_phigaro_task] in
  task_output_file <- call_fs (run_tasks_chain E tasks) (RunTasksChain tasks) ;;
  (* 160-171 *)
  (if bool_decide ("tsv" ∈ ext) || bool_decide ("stdout" ∈ ext) then
     f <- call_fs (fun d => (open_read E task_output_file d, d))
                  (Open task_output_file) ;;
     (if bool_decide ("tsv" ∈ ext) then
        name <- add_str (output a) ".tsv" ;;
        call_fs (open_write E name f) (WriteFile name f)
      else ret tt) ;;
     (if bool_decide ("stdout" ∈ ext) then
        emit (WriteStdout f) ;;
        emit CloseStdout
      else ret tt)
   else ret tt) ;;
  (* 173-176 *)
  if negb (no_cleanup a) then
    for_each clean tasks ;;
    clean_fold
  else ret tt.

End Driver.

(** ** Vocabulary for traces *)

(** Events of lines 92 to 134: messages, the configuration file, the output
    folder and the context. *)
Definition is_setup (ev : event) : bool :=
  match ev with
  | Print _ | LogInfo _ | Open _ _ | YamlLoad _ | Makedirs _ _
  | ContextInitialize _ _ _ _ => true
  | _ => false
  end.

(** Events up to the assembly of the chain: the above and constructions. *)
Definition is_assembly (ev : event) : bool :=
  match ev with
  | Construct _ => true
  | _ => is_setup ev
  end.

(** Events of the copy of the final artifact to a [.tsv] file and to the
    standard output, lines 160 to 171. *)
Definition is_mirror (ev : event) : bool :=
  match ev with
  | Open _ _ | WriteFile _ _ _ | WriteStdout _ | CloseStdout => true
  | _ => false
  end.

(** A task was created or the chain was run. *)
Definition is_task_event (ev : event) : bool :=
  match ev with
  | Construct _ | RunTasksChain _ _ => true
  | _ => false
  end.

(** A [clean()] call or a directory removal. *)
Definition is_cleanup (ev : event) : bool :=
  match ev with
  | Clean _ _ | Rmdir _ _ => true
  | _ => false
  end.

(** A directory removal that succeeded. *)
Definition is_rmdir_ok (ev : event) : bool :=
  match ev with
  | Rmdir _ (Ok _) => true
  | _ => false
  end.

(** The chain ran and returned normally. *)
Definition is_chain_ok (ev : event) : bool :=
  match ev with
  | RunTasksChain _ (Ok _) => true
  | _ => false
  end.


(** Every event a computation emits belongs to a class of events. *)
Definition only {A} (P : event -> bool) (m : M A) : Prop :=
  forall d r d' evs, m d = (r, d', evs) -> Forall (fun ev => P ev = true) evs.

(** Every event of a computation that returns normally belongs to a class
    of events. *)
Definition only_ok {A} (P : event -> bool) (m : M A) : Prop :=
  forall d a d' evs,
    m d = (Ok a, d', evs) -> Forall (fun ev => P ev = true) evs.

Definition events_of {A} (x : result A * dir * list event) : list event :=
  snd x.

Definition result_of {A} (x : result A * dir * list event) : result A :=
  fst (fst x).

Definition final_dir {A} (x : result A * dir * list event) : dir :=
  snd (fst x).

Section Shapes.

Variable E : Env.

(** How a run that got past the parsing of the substitutions ends: the
    chain raises, or the copy of its result raises, or cleanup is
    disabled, or cleanup runs. *)
Definition chain_shape (a : Args) (r : result unit) (d' : dir)
    (evs : list event) : Prop :=
  exists pre ts,
    Forall (fun ev => is_assembly ev = true) pre /\
    length ts = 4 /\
    ((exists e, r = Raise e /\ evs = pre ++ [RunTasksChain ts (Raise e)]) \/
     exists p mid,
       Forall (fun ev => is_mirror ev = true) mid /\
       ((exists e, r = Raise e /\ evs = pre ++ RunTasksChain ts (Ok p) :: mid) \/
        (no_cleanup a = true /\ r = Ok tt /\
         evs = pre ++ RunTasksChain ts (Ok p) :: mid) \/
        (no_cleanup a = false /\
         exists dm cl,
           (for_each (clean E) ts ;; clean_fold) dm = (r, d', cl) /\
           evs = pre ++ RunTasksChain ts (Ok p) :: mid ++ cl))).

(** How a run ends: before any task is created, or as above. *)
Definition main_shape (a : Args) (r : result unit) (d' : dir)
    (evs : list event) : Prop :=
  ((exists e, r = Raise e) /\ Forall (fun ev => is_setup ev = true) evs) \/
  ((exists subs, parse_substitute_output (substitute_output a) = Ok subs) /\
   chain_shape a r d' evs).

End Shapes.

(** ** Vocabulary for the walk *)

(** Triples and events seen from the parent directory. *)
Definition enter (n : string) (entry : path * list string * list string)
  : path * list string * list string :=
  let '(root, dirs, fs) := entry in (n :: root, dirs, fs).

Definition enter_event (n : string) (ev : event) : event :=
  match ev with
  | Rmdir p r => Rmdir (n :: p) r
  | _ => ev
  end.

Definition no_files (d : dir) : bool := (count_files d =? 0)%nat.

Fixpoint sum_files (l : list (string * dir)) : nat :=
  match l with
  | [] => 0
  | (_, s) :: l' => count_files s + sum_files l'
  end.

Fixpoint walk_dirs (top : path) (l : list (string * dir))
  : list (path * list string * list string) :=
  match l with
  | [] => []
  | (n, s) :: l' => walk (top ++ [n]) s ++ walk_dirs top l'
  end.

(** The tree [P] with its entry [n] replaced. *)
Definition graft (n : string) (s' : dir) (P : dir) : dir :=
  Dir (replace_entry n s' (subdirs P)) (files P).

(** A computation on the tree [P] does to the subtree at [n] what another
    one does to the tree [s]. *)
Definition framed {A} (n : string) (local parent : M A) : Prop :=
  forall P s a s' evs,
    assoc n (subdirs P) = Some s ->
    local s = (Ok a, s', evs) ->
    parent P = (Ok a, graft n s' P, map (enter_event n) evs).

(** What the loop of [clean_fold] does to a tree when the walk starts at its
    root: the flag stays set exactly when the tree holds no file, no file is
    lost, and a tree without files ends up empty. *)
Definition sweeps (s : dir) : Prop :=
  forall b, exists s' evs,
    clean_fold_loop (walk [] s) b s = (Ok (b && no_files s), s', evs) /\
    count_files s' = count_files s /\
    (b && no_files s = true -> s' = Dir [] []).

(** ** Concrete runs *)

Definition demo_config : Config := {[ "phigaro" := ∅ ]}.

(** An environment in which every call succeeds, but for the existence of
    the configuration file and the writing of the [.tsv] copy, which are
    chosen. *)
Definition demo_env_with (config_exists : bool) (write : result unit) : Env := {|
  os_path_exists := fun _ => config_exists;
  os_path_isdir := fun _ => true;
  posix_dirname := fun _ => EmptyString;
  makedirs := fun _ d => (Ok tt, d);
  open_read := fun _ _ => Ok ["scaffold_1 prophage"];
  open_write := fun _ _ d => (write, d);
  yaml_load := fun _ => Ok demo_config;
  uuid4_hex := "0f";
  sample_name := fun s => s;
  Context_initialize := fun _ _ _ => Ok tt;
  class_task_name := fun cls =>
    match cls with
    | PreprocessTask => "input_file"
    | ProdigalTask => "prodigal"
    | HmmerTask => "hmmer"
    | RunPhigaroTask => "run_phigaro"
    end;
  dummy_task_name := fun _ name => name +:+ "-dummy";
  run_tasks_chain := fun _ d => (Ok "proc/sample/run_phigaro.tsv", d);
  real_clean := fun _ d => (Ok tt, d)
|}.

Definition demo_env : Env := demo_env_with true (Ok tt).

(** The [.tsv] copy cannot be written. *)
Definition readonly_env : Env := demo_env_with true (Raise OSError).

(** The configuration file is missing. *)
Definition unconfigured_env : Env := demo_env_with false (Ok tt).

Definition demo_args_with (ext : list string) (out : pyval) : Args := {|
  fasta_file := "genome.fasta";
  config := "config.yml";
  verbose := false;
  print_vogs := false;
  extension := ext;
  output := out;
  not_open := false;
  threads := 1;
  no_cleanup := false;
  substitute_output := None;
  delete_shorts := false;
  mode := "basic"
|}.

Definition demo_args : Args := demo_args_with ["tsv"] (VStr "out").

(** A scratch directory holding only an empty sample directory. *)
Definition empty_proc : dir := Dir [("sample", Dir [] [])] [].

Definition empty_scratch : dir := Dir [("proc", empty_proc)] [].

(** A scratch directory with an empty directory [a/x] listed before a
    directory [b] that holds a file. *)
Definition leftover_proc : dir :=
  Dir [("a", Dir [("x", Dir [] [])] []);
       ("b", Dir [] ["leftover.txt"])] [].

Definition leftover_tree : dir := Dir [("proc", leftover_proc)] [].

(** ** Vocabulary for substitutions *)

(** [subs or []]: the entries the parser loops over. *)
Definition entries (subs : option (list string)) : list string :=
  match subs with
  | Some l => l
  | None => []
  end.

(** Number of occurrences of a character in a string. *)
Fixpoint occurrences (c : ascii) (s : string) : nat :=
  match s with
  | EmptyString => 0
  | String d s' => (if Ascii.eqb d c then 1 else 0) + occurrences c s'
  end.

(** ** Vocabulary for the files of a tree *)

(** The plain files below a directory, each with its path. *)
Fixpoint file_paths (top : path) (d : dir) : list path :=
  match d with
  | Dir subs fs =>
      map (fun f => top ++ [f]) fs ++
      (fix below (l : list (string * dir)) : list path :=
         match l with
         | [] => []
         | (n, s) :: l' => file_paths (top ++ [n]) s ++ below l'
         end) subs
  end.

Fixpoint file_paths_in (top : path) (l : list (string * dir)) : list path :=
  match l with
  | [] => []
  | (n, s) :: l' => file_paths (top ++ [n]) s ++ file_paths_in top l'
  end.

(** A computation leaves every file where it is, however it ends. *)
Definition keeps_files {A} (m : M A) : Prop :=
  forall d r d' evs,
    m d = (r, d', evs) -> forall top, file_paths top d' = file_paths top d.

(** ** Vocabulary for removals *)

(** A removal of the directory [n] of the working directory, or of a
    directory below it. *)
Definition is_rmdir_below (n : string) (ev : event) : bool :=
  match ev with
  | Rmdir (m :: _) _ => String.eqb m n
  | _ => false
  end.

(** Anything but a removal outside of [proc]. *)
Definition stays_in_proc (ev : event) : bool :=
  match ev with
  | Rmdir _ _ => is_rmdir_below "proc" ev
  | _ => true
  end.

(** The sub-directories a triple of the walk lists, as paths. *)
Definition children (entry : path * list string * list string) : list path :=
  let '(root, dirs, _) := entry in map (fun name => root ++ [name]) dirs.

(** The triples that come before the first one that lists a file. *)
Fixpoint before_first_file (entries : list (path * list string * list string))
  : list (path * list string * list string) :=
  match entries with
  | [] => []
  | (root, dirs, fs) :: rest =>
      match fs with
      | [] => (root, dirs, fs) :: before_first_file rest
      | _ :: _ => []
      end
  end.

(** The sub-directories of the directories walked before a file is met. *)
Definition doomed (entries : list (path * list string * list string))
  : list path :=
  flat_map children (before_first_file entries).

(** What the loop of [clean_fold] does to a tree, as [sweeps] has it, and
    what it does when run again on the result: nothing. *)
Definition sweeps_once (s : dir) : Prop :=
  forall b, exists s' evs,
    clean_fold_loop (walk [] s) b s = (Ok (b && no_files s), s', evs) /\
    count_files s' = count_files s /\
    (b && no_files s = true -> s' = Dir [] []) /\
    clean_fold_loop (walk [] s') b s' = (Ok (b && no_files s), s', []).

(** ** Vocabulary for the driver *)

Definition is_context (ev : event) : bool :=
  match ev with
  | ContextInitialize _ _ _ _ => true
  | _ => false
  end.

Definition is_makedirs (ev : event) : bool :=
  match ev with
  | Makedirs _ _ => true
  | _ => false
  end.

Definition is_chain (ev : event) : bool :=
  match ev with
  | RunTasksChain _ _ => true
  | _ => false
  end.

Definition is_construct (ev : event) : bool :=
  match ev with
  | Construct _ => true
  | _ => false
  end.

(** A copy of the result was written. *)
Definition is_write (ev : event) : bool :=
  match ev with
  | WriteFile _ _ _ | WriteStdout _ | CloseStdout => true
  | _ => false
  end.

(** The events outside of a class. *)
Definition avoid (T : event -> bool) (ev : event) : bool := negb (T ev).

(** The keys of [config['phigaro']] that lines 106 to 115 assign. *)
Definition option_names : list string :=
  ["print_vogs"; "filename"; "no_html"; "not_open"; "output"; "uuid";
   "delete_shorts"; "gff"; "bed"; "mode"].

(** Lines 160 to 171 of [main], the block that copies the result of the
    chain, for the lowercased formats [ext]. *)
Definition mirror (E : Env) (a : Args) (ext : list string)
    (task_output_file : string) : M unit :=
  if bool_decide ("tsv" ∈ ext) || bool_decide ("stdout" ∈ ext) then
    f <- call_fs (fun d => (open_read E task_output_file d, d))
                 (Open task_output_file) ;;
    (if bool_decide ("tsv" ∈ ext) then
       name <- add_str (output a) ".tsv" ;;
       call_fs (open_write E name f) (WriteFile name f)
     else ret tt) ;;
    (if bool_decide ("stdout" ∈ ext) then
       emit (WriteStdout f) ;;
       emit CloseStdout
     else ret tt)
  else ret tt.

(** The task [create_task] returns for a stage. *)
Definition stage (E : Env) (substitutions : gmap string task)
    (cls : task_class) (args : list (option string * arg)) : task :=
  default (Instance cls args) (substitutions !! class_task_name E cls).

(** An environment in which every call succeeds; the loaded document, the
    folder of the output name and whether that folder exists are chosen. *)
Definition demo_env_for (document : Config) (fold : string)
    (fold_exists : bool) : Env := {|
  os_path_exists := fun _ => true;
  os_path_isdir := fun _ => fold_exists;
  posix_dirname := fun _ => fold;
  makedirs := fun _ d => (Ok tt, d);
  open_read := fun _ _ => Ok ["scaffold_1 prophage"];
  open_write := fun _ _ d => (Ok tt, d);
  yaml_load := fun _ => Ok document;
  uuid4_hex := "0f";
  sample_name := fun s => s;
  Context_initialize := fun _ _ _ => Ok tt;
  class_task_name := class_task_name demo_env;
  dummy_task_name := dummy_task_name demo_env;
  run_tasks_chain := fun _ d => (Ok "proc/sample/run_phigaro.tsv", d);
  real_clean := fun _ d => (Ok tt, d)
|}.

(** The arguments of a run that substitutes the output of prodigal. *)
Definition substituted_args : Args := {|
  fasta_file := "genome.fasta";
  config := "config.yml";
  verbose := false;
  print_vogs := false;
  extension := ["html"];
  output := VStr "out";
  not_open := false;
  threads := 1;
  no_cleanup := false;
  substitute_output := Some ["prodigal:genes.faa"];
  delete_shorts := false;
  mode := "basic"
|}.

(** The configuration the context receives in the run of [demo_args]. *)
Definition demo_context_config : Config :=
  <["phigaro" := set_options demo_env demo_args ["tsv"] ∅]> demo_config.

(** Anything but the construction of a dummy. *)
Definition constructs_instance (ev : event) : bool :=
  match ev with
  | Construct (DummyTask _ _) => false
  | _ => true
  end.

(** * Properties *)

(** ** Splitting *)

Lemma split_nonempty sep s : split sep s <> [].
Proof.
  destruct s as [|c s]; simpl; [discriminate|].
  destruct (Ascii.eqb c sep); [discriminate|].
  destruct (split sep s); discriminate.
Qed.

Lemma split_no_sep sep s : contains sep s = false -> split sep s = [s].
Proof.
  induction s as [|c s IH]; simpl; intros H; [reflexivity|].
  apply orb_false_iff in H as [Hc Hs].
  rewrite Hc, (IH Hs). reflexivity.
Qed.


Lemma split_with_sep sep p :
  contains sep p = true -> exists a b q, split sep p = a :: b :: q.
Proof.
  induction p as [|c p IH]; simpl; intros H; [discriminate|].
  destruct (Ascii.eqb c sep) eqn:Hc.
  - pose proof (split_nonempty sep p) as Hne.
    destruct (split sep p) as [|b q]; [contradiction|]. eauto.
  - simpl in H. destruct (IH H) as (a & b & q & ->). eauto.
Qed.

(** ** The substitution parser *)

Lemma unpack2_raise parts e : unpack2 parts = Raise e -> e = ValueError.
Proof.
  destruct parts as [|a [|b [|c l]]]; simpl; congruence.
Qed.

Lemma unpack2_ok parts n o : unpack2 parts = Ok (n, o) -> parts = [n; o].
Proof.
  destruct parts as [|a [|b [|c l]]]; simpl; congruence.
Qed.

Lemma parse_loop_raise subs : forall res e,
  parse_loop subs res = Raise e -> e = ValueError.
Proof.
  induction subs as [|sub subs IH]; simpl; intros res e H; [discriminate|].
  destruct (unpack2 (split colon sub)) as [[n o]|e'] eqn:Hu.
  - eauto.
  - injection H as <-. eapply unpack2_raise; eauto.
Qed.

Lemma parse_loop_bad_entry subs : forall res s,
  In s subs -> contains colon s = false ->
  parse_loop subs res = Raise ValueError.
Proof.
  induction subs as [|sub subs IH]; simpl; intros res s Hin Hs; [contradiction|].
  destruct Hin as [-> | Hin].
  - rewrite (split_no_sep _ _ Hs). reflexivity.
  - destruct (unpack2 (split colon sub)) as [[n o]|e'] eqn:Hu.
    + eauto.
    + now rewrite (unpack2_raise _ _ Hu).
Qed.

Lemma parse_substitute_output_list l :
  parse_substitute_output (Some l) = parse_loop l ∅.
Proof. destruct l; reflexivity. Qed.

(** Entries whose first piece is not [name] leave the slot of [name] as it
    was. *)
Lemma parse_loop_other subs name : forall res0 res,
  parse_loop subs res0 = Ok res ->
  Forall (fun sub => hd EmptyString (split colon sub) <> name) subs ->
  res !! name = res0 !! name.
Proof.
  induction subs as [|sub subs IH]; simpl; intros res0 res H Hall.
  - congruence.
  - inversion Hall as [|? ? Hsub Hrest]; subst.
    destruct (unpack2 (split colon sub)) as [[n o]|e'] eqn:Hu; [|discriminate].
    apply unpack2_ok in Hu. rewrite Hu in Hsub. simpl in Hsub.
    rewrite (IH _ _ H Hrest). now apply lookup_insert_ne.
Qed.

Lemma parse_loop_last l1 : forall sub l2 name out res0 res,
  parse_loop (l1 ++ sub :: l2) res0 = Ok res ->
  split colon sub = [name; out] ->
  Forall (fun sub' => hd EmptyString (split colon sub') <> name) l2 ->
  res !! name = Some (DummyTask out name).
Proof.
  induction l1 as [|s l1 IH]; simpl; intros sub l2 name out res0 res H Hs Hall.
  - rewrite Hs in H. simpl in H.
    rewrite (parse_loop_other _ _ _ _ H Hall). apply lookup_insert_eq.
  - destruct (unpack2 (split colon s)) as [[n o]|e'] eqn:Hu; [|discriminate].
    eapply IH; eauto.
Qed.

(** ** Running computations *)

Lemma bind_ok {A B} (m : M A) (f : A -> M B) d a d1 evs1 :
  m d = (Ok a, d1, evs1) ->
  bind m f d = (let '(r, d2, evs2) := f a d1 in (r, d2, evs1 ++ evs2)).
Proof. intros H. unfold bind. rewrite H. reflexivity. Qed.

Lemma bind_raise {A B} (m : M A) (f : A -> M B) d e d1 evs1 :
  m d = (Raise e, d1, evs1) -> bind m f d = (Raise e, d1, evs1).
Proof. intros H. unfold bind. rewrite H. reflexivity. Qed.

Lemma bind_inv {A B} (m : M A) (f : A -> M B) d r d' evs :
  bind m f d = (r, d', evs) ->
  (exists e, m d = (Raise e, d', evs) /\ r = Raise e) \/
  (exists a d1 evs1 evs2,
     m d = (Ok a, d1, evs1) /\ f a d1 = (r, d', evs2) /\ evs = evs1 ++ evs2).
Proof.
  unfold bind. destruct (m d) as [[[a|e] d1] evs1].
  - destruct (f a d1) as [[r2 d2] evs2] eqn:Hf. intros [= <- <- <-].
    right. exists a, d1, evs1, evs2. auto.
  - intros [= <- <- <-]. left. eauto.
Qed.

Ltac bind_step H :=
  let e := fresh "e" in let a := fresh "a" in let d1 := fresh "d" in
  let evs1 := fresh "evs" in let evs2 := fresh "evs" in
  let Hm := fresh "Hm" in
  apply bind_inv in H as [(e & H & ->) | (a & d1 & evs1 & evs2 & Hm & H & ->)].

Section OnlyFacts.
Context {A B : Type} (P : event -> bool).

Lemma only_ret (a : A) : only P (ret a).
Proof. intros d r d' evs [= <- <- <-]. constructor. Qed.

Lemma only_raise e : only P (@raise A e).
Proof. intros d r d' evs [= <- <- <-]. constructor. Qed.

Lemma only_lift (x : result A) : only P (lift x).
Proof. intros d r d' evs [= <- <- <-]. constructor. Qed.

Lemma only_emit ev : P ev = true -> only P (emit ev).
Proof. intros H d r d' evs [= <- <- <-]. repeat constructor. exact H. Qed.

Lemma only_call_pure (x : result A) ev :
  (forall r, P (ev r) = true) -> only P (call_pure x ev).
Proof. intros H d r d' evs [= <- <- <-]. repeat constructor. apply H. Qed.

Lemma only_call_fs (f : dir -> result A * dir) ev :
  (forall r, P (ev r) = true) -> only P (call_fs f ev).
Proof.
  intros H d r d' evs. unfold call_fs. destruct (f d) as [r0 d0].
  intros [= <- <- <-]. repeat constructor. apply H.
Qed.

Lemma only_bind (m : M A) (f : A -> M B) :
  only P m -> (forall a, only P (f a)) -> only P (bind m f).
Proof.
  intros Hm Hf d r d' evs H.
  apply bind_inv in H as [(e & H & ->) | (a & d1 & evs1 & evs2 & H1 & H2 & ->)].
  - eapply Hm; eauto.
  - apply Forall_app. split; [eapply Hm | eapply Hf]; eauto.
Qed.

End OnlyFacts.

Lemma only_for_each {A} P (body : A -> M unit) l :
  (forall x, only P (body x)) -> only P (for_each body l).
Proof.
  intros Hb. induction l as [|x l IH]; simpl.
  - apply only_ret.
  - apply only_bind; auto.
Qed.

Ltac solve_only :=
  repeat first
    [ apply only_ret | apply only_raise | apply only_lift
    | apply only_emit; reflexivity
    | apply only_call_pure; intros; reflexivity
    | apply only_call_fs; intros; reflexivity
    | apply only_bind; [|intros ?]
    | progress unfold print, exit, getitem, os_path_dirname, add_str
    | match goal with
      | |- only _ (if ?c then _ else _) => destruct c
      | |- only _ (match ?x with _ => _ end) => destruct x
      end ].

Section MainShape.

Variable E : Env.

Lemma create_task_run subs cls args d :
  exists t evs,
    create_task E subs cls args d = (Ok t, d, evs) /\
    Forall (fun ev => is_assembly ev = true) evs.
Proof.
  unfold create_task, bind, emit, print, ret. simpl.
  destruct (subs !! class_task_name E cls); do 2 eexists;
    (split; [reflexivity | repeat constructor]).
Qed.

Lemma lookup_output a ext phigaro :
  set_options E a ext phigaro !! "output" = Some (output a).
Proof.
  unfold set_options.
  repeat (rewrite lookup_insert_ne by discriminate).
  apply lookup_insert_eq.
Qed.

Lemma chain_shape_prefix a r d' pre evs :
  Forall (fun ev => is_assembly ev = true) pre ->
  chain_shape E a r d' evs -> chain_shape E a r d' (pre ++ evs).
Proof.
  intros Hpre (pre' & ts & Hpre' & Hlen & Hrest).
  exists (pre ++ pre'), ts.
  split; [apply Forall_app; auto|]. split; [exact Hlen|].
  destruct Hrest as [(e & -> & ->) | (p & mid & Hmid & Hrest)].
  - left. exists e. now rewrite app_assoc.
  - right. exists p, mid. split; [exact Hmid|].
    destruct Hrest as [(e & -> & ->) | [(Hn & -> & ->) | (Hn & dm & cl & Hc & ->)]].
    + left. exists e. now rewrite app_assoc.
    + right; left. now rewrite app_assoc.
    + right; right. split; [exact Hn|]. exists dm, cl.
      split; [exact Hc|]. now rewrite app_assoc.
Qed.

Lemma is_setup_assembly ev : is_setup ev = true -> is_assembly ev = true.
Proof. destruct ev; simpl; congruence. Qed.

Lemma main_shape_prefix a r d' pre evs :
  Forall (fun ev => is_setup ev = true) pre ->
  main_shape E a r d' evs -> main_shape E a r d' (pre ++ evs).
Proof.
  intros Hpre [[He Hs] | [Hp Hc]].
  - left. split; [exact He|]. apply Forall_app; auto.
  - right. split; [exact Hp|]. apply chain_shape_prefix; [|exact Hc].
    eapply Forall_impl; [exact Hpre|]. apply is_setup_assembly.
Qed.

Ltac setup_raise H :=
  left; split; [eauto|];
  match type of H with
  | ?m ?d = _ => let Ho := fresh in
                 assert (Ho : only is_setup m) by solve_only;
                 exact (Ho _ _ _ _ H)
  end.

Ltac setup_ok Hm :=
  apply main_shape_prefix;
  [ match type of Hm with
    | ?m ?d = _ => let Ho := fresh in
                   assert (Ho : only is_setup m) by solve_only;
                   exact (Ho _ _ _ _ Hm)
    end
  | clear Hm ].

Ltac setup_step H :=
  let e := fresh "e" in let a := fresh "a" in let d1 := fresh "d" in
  let evs1 := fresh "evs" in let evs2 := fresh "evs" in
  let Hm := fresh "Hm" in
  apply bind_inv in H as [(e & H & ->) | (a & d1 & evs1 & evs2 & Hm & H & ->)];
  [ setup_raise H | setup_ok Hm ].

Lemma main_inv a d r d' evs :
  main E a d = (r, d', evs) -> main_shape E a r d' evs.
Proof.
  intros H. unfold main in H.
  do 9 setup_step H.
  bind_step H; [setup_raise H|].
  unfold lift in Hm. injection Hm as Hparse <- <-. simpl.
  right. split; [eauto|]. clear Hparse.
  do 4 (bind_step H;
        [ match type of H with
          | create_task E ?s ?c ?args ?d0 = _ =>
              destruct (create_task_run s c args d0) as (? & ? & Hc & _);
              rewrite Hc in H; discriminate
          end
        | match type of Hm with
          | create_task E ?s ?c ?args ?d0 = _ =>
              let Ha := fresh "Ha" in
              destruct (create_task_run s c args d0) as (? & ? & Hc & Ha);
              rewrite Hc in Hm; injection Hm as <- <- <-; clear Hc;
              apply chain_shape_prefix; [exact Ha | clear Ha]
          end ]).
  exists []. eexists. split; [constructor|]. split; cycle 1.
  simpl.
  bind_step H.
  { left. exists e. split; [reflexivity|].
    unfold call_fs in H. destruct (run_tasks_chain E _ _) as [rc dc].
    injection H as -> <- <-. reflexivity. }
  right.
  unfold call_fs in Hm. destruct (run_tasks_chain E _ _) as [rc dc].
  injection Hm as -> <- <-. simpl.
  bind_step H.
  { do 2 eexists. split; cycle 1.
    { left. eexists. split; reflexivity. }
    match type of H with
    | ?m ?d = _ => let Ho := fresh in
                   assert (Ho : only is_mirror m) by solve_only;
                   exact (Ho _ _ _ _ H)
    end. }
  destruct (no_cleanup a) eqn:Hnc; simpl in H.
  - injection H as <- <- <-. do 2 eexists. split; cycle 1.
    { right; left. rewrite app_nil_r. repeat split; reflexivity. }
    match type of Hm with
    | ?m ?d = _ => let Ho := fresh in
                   assert (Ho : only is_mirror m) by solve_only;
                   exact (Ho _ _ _ _ Hm)
    end.
  - do 2 eexists. split; cycle 1.
    { right; right. split; [reflexivity|]. do 2 eexists.
      split; [exact H | reflexivity]. }
    match type of Hm with
    | ?m ?d = _ => let Ho := fresh in
                   assert (Ho : only is_mirror m) by solve_only;
                   exact (Ho _ _ _ _ Hm)
    end.
  - reflexivity.
Qed.
End MainShape.

Lemma count_files_eq subs fs :
  count_files (Dir subs fs) = length fs + sum_files subs.
Proof.
  reflexivity.
Qed.

Lemma walk_eq top subs fs :
  walk top (Dir subs fs) = walk_dirs top subs ++ [(top, map fst subs, fs)].
Proof.
  simpl. f_equal. induction subs as [|[n s] l IH]; simpl; congruence.
Qed.

Lemma wf_dir_eq subs fs :
  wf_dir (Dir subs fs) = true <->
  NoDup (map fst subs) /\ Forall (fun e => wf_dir (snd e) = true) subs.
Proof.
  simpl. rewrite andb_true_iff, bool_decide_eq_true.
  apply and_iff_compat_l.
  induction subs as [|[n s] l IH]; simpl.
  - split; auto.
  - rewrite andb_true_iff, IH. split.
    + intros [? ?]. constructor; auto.
    + intros H. inversion H; subst. auto.
Qed.

Lemma dir_rect' (P : dir -> Prop) :
  (forall subs fs, Forall (fun e => P (snd e)) subs -> P (Dir subs fs)) ->
  forall d, P d.
Proof.
  intros HP. fix IH 1. intros [subs fs]. apply HP.
  induction subs as [|[n s] l IHl]; constructor; [apply IH | exact IHl].
Qed.

Lemma walk_enter n : forall s top,
  walk (n :: top) s = map (enter n) (walk top s).
Proof.
  induction s as [subs fs IH] using dir_rect'. intros top.
  rewrite !walk_eq, map_app. simpl. f_equal.
  induction subs as [|[m c] l IHl]; simpl; [reflexivity|].
  inversion IH as [|? ? Hc Hl]; subst. simpl in Hc.
  rewrite map_app, <- Hc, IHl by assumption. reflexivity.
Qed.

(** ** Entries of a directory *)

Lemma assoc_replace n x l :
  is_Some (assoc n l) -> assoc n (replace_entry n x l) = Some x.
Proof.
  induction l as [|[m c] l IH]; simpl; intros [y Hy]; [discriminate|].
  destruct (String.eqb n m) eqn:Hnm; simpl; rewrite Hnm; [reflexivity|].
  apply IH. eauto.
Qed.

Lemma replace_replace n x y l :
  replace_entry n y (replace_entry n x l) = replace_entry n y l.
Proof.
  induction l as [|[m c] l IH]; simpl; [reflexivity|].
  destruct (String.eqb n m) eqn:Hnm; simpl; rewrite Hnm; congruence.
Qed.

Lemma replace_same n s l : assoc n l = Some s -> replace_entry n s l = l.
Proof.
  induction l as [|[m c] l IH]; simpl; [reflexivity|].
  destruct (String.eqb n m) eqn:Hnm; intros H.
  - congruence.
  - now rewrite IH.
Qed.

Lemma assoc_middle n c l1 l2 :
  ~ In n (map fst l1) -> assoc n (l1 ++ (n, c) :: l2) = Some c.
Proof.
  induction l1 as [|[m x] l1 IH]; simpl; intros H.
  - now rewrite String.eqb_refl.
  - destruct (String.eqb n m) eqn:Hnm.
    + apply String.eqb_eq in Hnm. subst. tauto.
    + apply IH. tauto.
Qed.

Lemma replace_middle n c c' l1 l2 :
  ~ In n (map fst l1) ->
  replace_entry n c' (l1 ++ (n, c) :: l2) = l1 ++ (n, c') :: l2.
Proof.
  induction l1 as [|[m x] l1 IH]; simpl; intros H.
  - now rewrite String.eqb_refl.
  - destruct (String.eqb n m) eqn:Hnm.
    + apply String.eqb_eq in Hnm. subst. tauto.
    + rewrite IH by tauto. reflexivity.
Qed.

Lemma assoc_remove_other n m l :
  n <> m -> assoc n (remove_entry m l) = assoc n l.
Proof.
  intros Hne. induction l as [|[k c] l IH]; simpl; [reflexivity|].
  destruct (String.eqb m k) eqn:Hmk.
  - apply String.eqb_eq in Hmk. subst k.
    destruct (String.eqb n m) eqn:Hnm; [|reflexivity].
    apply String.eqb_eq in Hnm. contradiction.
  - simpl. now rewrite IH.
Qed.

Lemma assoc_replace_other n m x l :
  n <> m -> assoc n (replace_entry m x l) = assoc n l.
Proof.
  intros Hne. induction l as [|[k c] l IH]; simpl; [reflexivity|].
  destruct (String.eqb m k) eqn:Hmk; simpl.
  - apply String.eqb_eq in Hmk. subst k.
    destruct (String.eqb n m) eqn:Hnm; [|reflexivity].
    apply String.eqb_eq in Hnm. contradiction.
  - now rewrite IH.
Qed.

Lemma assoc_In n l : is_Some (assoc n l) -> In n (map fst l).
Proof.
  induction l as [|[m c] l IH]; simpl; intros [y Hy]; [discriminate|].
  destruct (String.eqb n m) eqn:Hnm.
  - apply String.eqb_eq in Hnm. auto.
  - right. apply IH. eauto.
Qed.

Lemma assoc_remove_same n l :
  NoDup (map fst l) -> assoc n (remove_entry n l) = None.
Proof.
  induction l as [|[m c] l IH]; simpl; intros H; [reflexivity|].
  inversion H as [|? ? Hm Hl]; subst.
  destruct (String.eqb n m) eqn:Hnm; simpl.
  - apply String.eqb_eq in Hnm. subst m.
    destruct (assoc n l) eqn:Ha; [|reflexivity].
    exfalso. apply Hm. apply list_elem_of_In, assoc_In. eauto.
  - rewrite Hnm. auto.
Qed.

Lemma map_fst_replace n x l : map fst (replace_entry n x l) = map fst l.
Proof.
  induction l as [|[m c] l IH]; simpl; [reflexivity|].
  destruct (String.eqb n m); simpl; congruence.
Qed.

(** ** Running below a directory of the tree *)

Lemma graft_graft n x y P : graft n y (graft n x P) = graft n y P.
Proof. unfold graft. simpl. now rewrite replace_replace. Qed.

Lemma graft_same n s P : assoc n (subdirs P) = Some s -> graft n s P = P.
Proof. intros H. unfold graft. rewrite (replace_same _ _ _ H). now destruct P. Qed.

Lemma assoc_graft n x P :
  is_Some (assoc n (subdirs P)) -> assoc n (subdirs (graft n x P)) = Some x.
Proof. intros H. unfold graft. simpl. now apply assoc_replace. Qed.

Lemma framed_ret {A} n (a : A) : framed n (ret a) (ret a).
Proof.
  intros P s a' s' evs Hs [= <- <- <-]. unfold ret. simpl.
  now rewrite (graft_same _ _ _ Hs).
Qed.

Lemma framed_bind {A B} n (m m' : M A) (f f' : A -> M B) :
  framed n m m' -> (forall a, framed n (f a) (f' a)) ->
  framed n (bind m f) (bind m' f').
Proof.
  intros Hm Hf P s b s' evs Hs H.
  apply bind_inv in H as [(e & _ & [=]) | (a & s1 & e1 & e2 & H1 & H2 & ->)].
  pose proof (Hm _ _ _ _ _ Hs H1) as H1'.
  assert (Hs1 : assoc n (subdirs (graft n s1 P)) = Some s1)
    by (apply assoc_graft; eauto).
  pose proof (Hf a _ _ _ _ _ Hs1 H2) as H2'.
  rewrite (bind_ok _ _ _ _ _ _ H1'), H2', graft_graft, map_app. reflexivity.
Qed.

Lemma rmdir_below n q P s :
  q <> [] -> assoc n (subdirs P) = Some s ->
  rmdir (n :: q) P =
  match rmdir q s with
  | Ok s' => Ok (graft n s' P)
  | Raise e => Raise e
  end.
Proof.
  intros Hq Hs. destruct q as [|x q]; [contradiction|].
  change (rmdir (n :: x :: q) P) with
    (match assoc n (subdirs P) with
     | Some s =>
         match rmdir (x :: q) s with
         | Ok s' => Ok (Dir (replace_entry n s' (subdirs P)) (files P))
         | Raise e => Raise e
         end
     | None => Raise OSError
     end).
  now rewrite Hs.
Qed.

Lemma framed_os_rmdir n q : q <> [] -> framed n (os_rmdir q) (os_rmdir (n :: q)).
Proof.
  intros Hq P s a s' evs Hs H. unfold os_rmdir in *.
  rewrite (rmdir_below _ _ _ _ Hq Hs).
  destruct (rmdir q s) as [s1|e]; [|discriminate].
  injection H as <- <- <-. reflexivity.
Qed.

Lemma framed_rmdir_each n root dirs :
  framed n (rmdir_each root dirs) (rmdir_each (n :: root) dirs).
Proof.
  unfold rmdir_each. induction dirs as [|x dirs IH]; simpl.
  - apply framed_ret.
  - apply framed_bind; [|intros _; exact IH].
    apply (framed_os_rmdir n (root ++ [x])). now destruct root.
Qed.

Lemma framed_body n b entry :
  framed n (clean_fold_body b entry) (clean_fold_body b (enter n entry)).
Proof.
  destruct entry as [[root dirs] fs]. simpl.
  destruct (match fs with [] => b | _ :: _ => false end).
  - apply framed_bind; [apply framed_rmdir_each | intros; apply framed_ret].
  - apply framed_ret.
Qed.

Lemma framed_loop n entries : forall b,
  framed n (clean_fold_loop entries b) (clean_fold_loop (map (enter n) entries) b).
Proof.
  induction entries as [|entry entries IH]; simpl; intros b.
  - apply framed_ret.
  - apply framed_bind; [apply framed_body | intros; apply IH].
Qed.

Lemma bind_assoc {A B C} (m : M A) (f : A -> M B) (g : B -> M C) d :
  bind (bind m f) g d = bind m (fun a => bind (f a) g) d.
Proof.
  unfold bind. destruct (m d) as [[[a|e] d1] evs1]; [|reflexivity].
  destruct (f a d1) as [[[b|e] d2] evs2]; [|reflexivity].
  destruct (g b d2) as [[r d3] evs3]. now rewrite app_assoc.
Qed.

Lemma bind_ret_l {A B} (a : A) (f : A -> M B) d : bind (ret a) f d = f a d.
Proof. unfold bind, ret. now destruct (f a d) as [[r d1] evs]. Qed.

Lemma bind_ext {A B} (m : M A) (f g : A -> M B) d :
  (forall a d1, f a d1 = g a d1) -> bind m f d = bind m g d.
Proof.
  intros H. unfold bind. destruct (m d) as [[[a|e] d1] evs1]; [|reflexivity].
  now rewrite H.
Qed.

Lemma loop_app l1 l2 : forall b d,
  clean_fold_loop (l1 ++ l2) b d =
  bind (clean_fold_loop l1 b) (clean_fold_loop l2) d.
Proof.
  induction l1 as [|entry l1 IH]; simpl; intros b d.
  - now rewrite bind_ret_l.
  - rewrite bind_assoc. apply bind_ext. intros b1 d1. apply IH.
Qed.

Lemma loop_false entries : forall d,
  clean_fold_loop entries false d = (Ok false, d, []).
Proof.
  induction entries as [|[[root dirs] fs] entries IH]; simpl; intros d.
  - reflexivity.
  - unfold bind. simpl.
    destruct fs; unfold ret; simpl; now rewrite IH.
Qed.

(** ** Sweeping a tree *)

Lemma rmdir_single n d :
  assoc n (subdirs d) = Some (Dir [] []) ->
  rmdir [n] d = Ok (Dir (remove_entry n (subdirs d)) (files d)).
Proof. intros H. simpl. now rewrite H. Qed.

Lemma rmdir_each_empty l : forall fs,
  Forall (fun e => snd e = Dir [] []) l ->
  exists evs, rmdir_each [] (map fst l) (Dir l fs) = (Ok tt, Dir [] fs, evs).
Proof.
  induction l as [|[n c] l IH]; intros fs Hall.
  - eexists. reflexivity.
  - inversion Hall as [|? ? Hc Hl]; subst. simpl in Hc. subst c.
    destruct (IH fs Hl) as [evs Hevs].
    assert (Hfirst : os_rmdir ([] ++ [n]) (Dir ((n, Dir [] []) :: l) fs)
                     = (Ok tt, Dir l fs, [Rmdir [n] (Ok tt)])).
    { unfold os_rmdir. cbn [app]. rewrite rmdir_single.
      - simpl. rewrite String.eqb_refl. reflexivity.
      - simpl. now rewrite String.eqb_refl. }
    eexists.
    change (rmdir_each [] (map fst ((n, Dir [] []) :: l)))
      with (bind (os_rmdir ([] ++ [n])) (fun _ => rmdir_each [] (map fst l))).
    rewrite (bind_ok _ _ _ _ _ _ Hfirst), Hevs. reflexivity.
Qed.

Lemma flag_step b x y :
  (b && (x =? 0)%nat) && (y =? 0)%nat = b && (x + y =? 0)%nat.
Proof.
  destruct b; simpl; [|reflexivity].
  destruct x; simpl; [reflexivity|]. reflexivity.
Qed.

Lemma sweep_children l :
  Forall (fun e => sweeps (snd e)) l ->
  forall done fs b,
    NoDup (map fst (done ++ l)) ->
    exists l' evs,
      clean_fold_loop (walk_dirs [] l) b (Dir (done ++ l) fs)
      = (Ok (b && (sum_files l =? 0)%nat), Dir (done ++ l') fs, evs) /\
      map fst l' = map fst l /\
      sum_files l' = sum_files l /\
      (b && (sum_files l =? 0)%nat = true ->
       Forall (fun e => snd e = Dir [] []) l').
Proof.
  induction l as [|[n c] l IH]; intros Hsw done fs b Hnd.
  - exists [], []. simpl. rewrite andb_true_r. repeat split; auto.
  - inversion Hsw as [|? ? Hc Hl]; subst. simpl in Hc.
    destruct (Hc b) as (c' & evs1 & Hrun & Hcount & Hempty).
    assert (Hn : ~ In n (map fst done)).
    { rewrite map_app in Hnd. simpl in Hnd.
      apply NoDup_app in Hnd as (_ & Hdis & _).
      intros Hin. apply (Hdis n); [now apply list_elem_of_In | left]. }
    pose proof (framed_loop n (walk [] c) b (Dir (done ++ (n, c) :: l) fs)
                  c _ _ _ (assoc_middle n c done l Hn) Hrun) as Hframe.
    unfold graft in Hframe. simpl in Hframe.
    rewrite (replace_middle n c c' done l Hn) in Hframe.
    destruct (IH Hl (done ++ [(n, c')]) fs (b && no_files c))
      as (l' & evs2 & Hrest & Hnames & Hsum & Hall).
    { rewrite <- app_assoc. simpl.
      rewrite map_app in *. simpl in *. exact Hnd. }
    rewrite <- app_assoc in Hrest. simpl in Hrest.
    exists ((n, c') :: l'). eexists.
    split.
    { simpl walk_dirs. rewrite loop_app, walk_enter.
      rewrite (bind_ok _ _ _ _ _ _ Hframe), Hrest.
      rewrite <- app_assoc. simpl.
      unfold no_files. rewrite flag_step. reflexivity. }
    split; [simpl; congruence|].
    split; [simpl; congruence|].
    simpl. intros Hb. rewrite <- flag_step in Hb.
    apply andb_true_iff in Hb as [Hb1 Hb2].
    constructor; simpl.
    + apply Hempty. exact Hb1.
    + apply Hall. unfold no_files. now rewrite Hb1, Hb2.
Qed.

Lemma sweep_tree : forall s, wf_dir s = true -> sweeps s.
Proof.
  induction s as [subs fs IH] using dir_rect'. intros Hwf b.
  apply wf_dir_eq in Hwf as [Hnd Hwfs].
  assert (Hsw : Forall (fun e => sweeps (snd e)) subs).
  { clear Hnd. induction subs as [|e subs IHs]; constructor.
    - inversion IH; inversion Hwfs; subst. auto.
    - inversion IH; inversion Hwfs; subst. auto. }
  destruct (sweep_children subs Hsw [] fs b Hnd)
    as (subs' & evs1 & Hrun & Hnames & Hsum & Hall).
  simpl in Hrun.
  rewrite walk_eq, loop_app, (bind_ok _ _ _ _ _ _ Hrun).
  unfold no_files. rewrite !count_files_eq.
  destruct fs as [|f fs].
  - simpl length. simpl Nat.add.
    destruct (b && (sum_files subs =? 0)%nat) eqn:Hb.
    + destruct (rmdir_each_empty subs' [] (Hall eq_refl)) as [evs2 Hevs2].
      simpl. rewrite <- Hnames.
      unfold bind. rewrite Hevs2. simpl.
      do 2 eexists. split; [reflexivity|]. split; [|reflexivity].
      apply andb_true_iff in Hb as [_ Hb]. apply Nat.eqb_eq in Hb.
      simpl. lia.
    + simpl. unfold bind, ret. simpl.
      do 2 eexists. split; [reflexivity|]. split; [|discriminate].
      rewrite count_files_eq. simpl. lia.
  - simpl. rewrite andb_false_r.
    destruct (b && (sum_files subs =? 0)%nat);
      unfold bind, ret; simpl;
      (do 2 eexists; split; [reflexivity|]; split; [|discriminate]);
      rewrite count_files_eq; simpl; lia.
Qed.

Section Cleanup.
Variable E : Env.

Lemma clean_run t d a d' evs :
  clean E t d = (Ok a, d', evs) -> evs = [Clean t (Ok tt)].
Proof.
  destruct t as [cls args | out name]; simpl.
  - unfold call_fs. destruct (real_clean E _ d) as [r d1].
    intros [= -> <- <-]. now destruct a.
  - intros [= <- <- <-]. reflexivity.
Qed.

Lemma for_each_clean_run ts : forall d d' evs,
  for_each (clean E) ts d = (Ok tt, d', evs) ->
  evs = map (fun t => Clean t (Ok tt)) ts.
Proof.
  induction ts as [|t ts IH]; simpl; intros d d' evs H.
  - now injection H as <- <-.
  - apply bind_inv in H as [(e & _ & [=]) | (a & d1 & e1 & e2 & H1 & H2 & ->)].
    rewrite (clean_run _ _ _ _ _ H1), (IH _ _ _ H2). reflexivity.
Qed.

Lemma only_os_rmdir p : only is_cleanup (os_rmdir p).
Proof.
  intros d r d' evs. unfold os_rmdir.
  destruct (rmdir p d); intros [= <- <- <-]; repeat constructor.
Qed.

Lemma only_clean_fold_loop entries : forall b,
  only is_cleanup (clean_fold_loop entries b).
Proof.
  induction entries as [|[[root dirs] fs] entries IH]; simpl; intros b.
  - apply only_ret.
  - apply only_bind; [|intros; apply IH].
    destruct (match fs with [] => b | _ :: _ => false end).
    + apply only_bind; [|intros; apply only_ret].
      apply only_for_each. intros; apply only_os_rmdir.
    + apply only_ret.
Qed.

Lemma only_clean_fold : only is_cleanup clean_fold.
Proof.
  unfold clean_fold. apply only_bind.
  - intros d r d' evs. unfold os_walk.
    destruct (assoc "proc" (subdirs d)); intros [= <- <- <-]; constructor.
  - intros entries. apply only_bind; [apply only_clean_fold_loop|].
    intros [|]; [apply only_os_rmdir | apply only_ret].
Qed.

Lemma only_clean t : only is_cleanup (clean E t).
Proof.
  destruct t; simpl.
  - apply only_call_fs. reflexivity.
  - apply only_emit. reflexivity.
Qed.

Lemma only_cleanup ts :
  only is_cleanup (for_each (clean E) ts ;; clean_fold).
Proof.
  apply only_bind; [|intros; apply only_clean_fold].
  apply only_for_each. apply only_clean.
Qed.

Lemma cleanup_complete ts d d' evs :
  (for_each (clean E) ts ;; clean_fold) d = (Ok tt, d', evs) ->
  exists dc cf,
    evs = map (fun t => Clean t (Ok tt)) ts ++ cf /\
    clean_fold dc = (Ok tt, d', cf).
Proof.
  intros H.
  apply bind_inv in H as [(e & _ & [=]) | (a & d1 & e1 & e2 & H1 & H2 & ->)].
  destruct a. rewrite (for_each_clean_run _ _ _ _ H1). eauto.
Qed.
End Cleanup.

Lemma setup_not_cleanup ev : is_setup ev = true -> is_cleanup ev = false.
Proof. destruct ev; simpl; congruence. Qed.

Lemma assembly_not_cleanup ev : is_assembly ev = true -> is_cleanup ev = false.
Proof. destruct ev; simpl; congruence. Qed.

Lemma mirror_not_cleanup ev : is_mirror ev = true -> is_cleanup ev = false.
Proof. destruct ev; simpl; congruence. Qed.

Lemma setup_not_task ev : is_setup ev = true -> is_task_event ev = false.
Proof. destruct ev; simpl; congruence. Qed.

Lemma Forall_class (P Q : event -> bool) (b : bool) evs :
  (forall ev, P ev = true -> Q ev = b) ->
  Forall (fun ev => P ev = true) evs -> Forall (fun ev => Q ev = b) evs.
Proof. intros H Hall. eapply Forall_impl; [exact Hall | exact H]. Qed.

Lemma not_in_class (P : event -> bool) ev evs :
  Forall (fun ev => P ev = true) evs -> P ev = false -> ~ In ev evs.
Proof.
  intros Hall Hev Hin. rewrite Forall_forall in Hall.
  apply list_elem_of_In, Hall in Hin. congruence.
Qed.

(** ** Removals of a run that returns normally *)

Lemma only_ok_ret {A} P (a : A) : only_ok P (ret a).
Proof. intros d a' d' evs [= <- <- <-]. constructor. Qed.

Lemma only_ok_bind {A B} P (m : M A) (f : A -> M B) :
  only_ok P m -> (forall a, only_ok P (f a)) -> only_ok P (bind m f).
Proof.
  intros Hm Hf d b d' evs H.
  apply bind_inv in H as [(e & _ & [=]) | (a & d1 & e1 & e2 & H1 & H2 & ->)].
  apply Forall_app. split; [eapply Hm | eapply Hf]; eauto.
Qed.

Lemma only_ok_for_each {A} P (body : A -> M unit) l :
  (forall x, only_ok P (body x)) -> only_ok P (for_each body l).
Proof.
  intros Hb. induction l as [|x l IH]; simpl.
  - apply only_ok_ret.
  - apply only_ok_bind; auto.
Qed.

Lemma only_ok_os_rmdir p : only_ok is_rmdir_ok (os_rmdir p).
Proof.
  intros d a d' evs. unfold os_rmdir.
  destruct (rmdir p d); intros [= <- <- <-]. repeat constructor.
Qed.

Lemma only_ok_clean_fold_loop entries : forall b,
  only_ok is_rmdir_ok (clean_fold_loop entries b).
Proof.
  induction entries as [|[[root dirs] fs] entries IH]; simpl; intros b.
  - apply only_ok_ret.
  - apply only_ok_bind; [|intros; apply IH].
    destruct (match fs with [] => b | _ :: _ => false end).
    + apply only_ok_bind; [|intros; apply only_ok_ret].
      apply only_ok_for_each. intros; apply only_ok_os_rmdir.
    + apply only_ok_ret.
Qed.

Lemma only_ok_clean_fold : only_ok is_rmdir_ok clean_fold.
Proof.
  unfold clean_fold. apply only_ok_bind.
  - intros d a d' evs. unfold os_walk.
    destruct (assoc "proc" (subdirs d)); intros [= <- <- <-]; constructor.
  - intros entries. apply only_ok_bind; [apply only_ok_clean_fold_loop|].
    intros [|]; [apply only_ok_os_rmdir | apply only_ok_ret].
Qed.

(** ** Entries and their pieces *)

Lemma parse_substitute_output_entries subs :
  parse_substitute_output subs = parse_loop (entries subs) ∅.
Proof. destruct subs as [[|s l]|]; reflexivity. Qed.

Lemma split_length sep s : length (split sep s) = S (occurrences sep s).
Proof.
  induction s as [|c s IH]; simpl; [reflexivity|].
  destruct (Ascii.eqb c sep); simpl.
  - now rewrite IH.
  - destruct (split sep s) as [|p ps]; simpl in *; [discriminate IH | exact IH].
Qed.

(** The unpacking of the pieces of an entry succeeds exactly when the entry
    holds one colon. *)
Lemma unpack2_split sub :
  match unpack2 (split colon sub) with
  | Ok (n, o) => split colon sub = [n; o] /\ occurrences colon sub = 1
  | Raise e => e = ValueError /\ occurrences colon sub <> 1
  end.
Proof.
  pose proof (split_length colon sub) as Hl.
  destruct (split colon sub) as [|a [|b [|c l]]]; simpl in *;
    split; first [reflexivity | lia].
Qed.

Lemma parse_loop_ok_iff subs : forall res0,
  (exists res, parse_loop subs res0 = Ok res) <->
  Forall (fun sub => occurrences colon sub = 1) subs.
Proof.
  induction subs as [|sub subs IH]; simpl; intros res0.
  - split; [constructor | eauto].
  - pose proof (unpack2_split sub) as Hu.
    destruct (unpack2 (split colon sub)) as [[n o]|e].
    + destruct Hu as [_ Hu]. rewrite IH. split.
      * intros H. constructor; assumption.
      * intros H. inversion H; assumption.
    + destruct Hu as [_ Hu]. split.
      * intros [res [=]].
      * intros H. inversion H; subst. contradiction.
Qed.

Lemma parse_loop_raise_iff subs : forall res0,
  parse_loop subs res0 = Raise ValueError <->
  Exists (fun sub => occurrences colon sub <> 1) subs.
Proof.
  induction subs as [|sub subs IH]; simpl; intros res0.
  - split; [discriminate | intros H; inversion H].
  - pose proof (unpack2_split sub) as Hu.
    destruct (unpack2 (split colon sub)) as [[n o]|e].
    + destruct Hu as [_ Hu]. rewrite IH. split.
      * intros H. now apply Exists_cons_tl.
      * intros H. inversion H; subst; [contradiction | assumption].
    + destruct Hu as [-> Hu]. split; [intros _; now apply Exists_cons_hd | reflexivity].
Qed.

Lemma split_one sep s : forall o,
  split sep s = [o] -> s = o /\ contains sep o = false.
Proof.
  induction s as [|c s IH]; simpl; intros o H.
  - injection H as <-. auto.
  - destruct (Ascii.eqb c sep) eqn:Hc.
    + injection H as _ H. now apply split_nonempty in H.
    + pose proof (split_nonempty sep s) as Hne.
      destruct (split sep s) as [|p ps]; [contradiction|].
      injection H as <- ->.
      destruct (IH p eq_refl) as [-> Hp].
      simpl. now rewrite Hc, Hp.
Qed.

(** An entry cut in two pieces is the first piece, a colon, the second
    piece, and neither piece holds a colon. *)
Lemma split_two sep s : forall n o,
  split sep s = [n; o] ->
  s = n +:+ String sep o /\ contains sep n = false /\ contains sep o = false.
Proof.
  induction s as [|c s IH]; simpl; intros n o H; [discriminate|].
  destruct (Ascii.eqb c sep) eqn:Hc.
  - injection H as <- H. apply Ascii.eqb_eq in Hc as ->.
    apply split_one in H as [-> Ho]. auto.
  - pose proof (split_nonempty sep s) as Hne.
    destruct (split sep s) as [|p ps]; [contradiction|].
    injection H as <- ->.
    destruct (IH p o eq_refl) as (-> & Hp & Ho).
    simpl. rewrite Hc, Hp. auto.
Qed.

Lemma parse_loop_slots subs : forall res0 res,
  parse_loop subs res0 = Ok res ->
  forall name t, res !! name = Some t ->
    res0 !! name = Some t \/
    exists out,
      t = DummyTask out name /\
      In (name +:+ ":" +:+ out) subs /\
      contains colon name = false /\ contains colon out = false.
Proof.
  induction subs as [|sub subs IH]; simpl; intros res0 res H name t Ht.
  - injection H as <-. auto.
  - pose proof (unpack2_split sub) as Hu.
    destruct (unpack2 (split colon sub)) as [[n o]|e]; [|discriminate].
    destruct Hu as [Hs _]. apply split_two in Hs as (-> & Hn & Ho).
    destruct (IH _ _ H name t Ht) as [Hl | (out & -> & Hin & Hc)].
    + destruct (decide (n = name)) as [->|Hne].
      * rewrite lookup_insert_eq in Hl. injection Hl as <-.
        right. exists o. repeat split; auto.
      * rewrite lookup_insert_ne in Hl by exact Hne. auto.
    + right. exists out. auto.
Qed.

Lemma parse_loop_app l1 l2 : forall res0,
  parse_loop (l1 ++ l2) res0 =
  match parse_loop l1 res0 with
  | Ok r => parse_loop l2 r
  | Raise e => Raise e
  end.
Proof.
  induction l1 as [|sub l1 IH]; simpl; intros res0; [reflexivity|].
  destruct (unpack2 (split colon sub)) as [[n o]|e]; [apply IH | reflexivity].
Qed.

(** The accumulator only sits below what the entries add. *)
Lemma parse_loop_union l : forall res0,
  parse_loop l res0 =
  match parse_loop l ∅ with
  | Ok r => Ok (r ∪ res0)
  | Raise e => Raise e
  end.
Proof.
  induction l as [|sub l IH]; simpl; intros res0.
  - now rewrite (left_id_L ∅ (∪)).
  - destruct (unpack2 (split colon sub)) as [[n o]|e]; [|reflexivity].
    rewrite (IH (<[n := DummyTask o n]> res0)), (IH (<[n := DummyTask o n]> ∅)).
    destruct (parse_loop l ∅) as [r|e]; [|reflexivity].
    f_equal.
    rewrite insert_empty, (insert_union_singleton_l res0), (assoc_L (∪)).
    reflexivity.
Qed.

Lemma parse_loop_mono l : forall res0 res k,
  parse_loop l res0 = Ok res -> is_Some (res0 !! k) -> is_Some (res !! k).
Proof.
  induction l as [|sub l IH]; simpl; intros res0 res k H Hk.
  - now injection H as <-.
  - destruct (unpack2 (split colon sub)) as [[n o]|e]; [|discriminate].
    eapply IH; [exact H|].
    destruct (decide (n = k)) as [->|Hne].
    + rewrite lookup_insert_eq. eauto.
    + now rewrite lookup_insert_ne.
Qed.



(** In a list whose entries all have two pieces, either no entry carries a
    name or some entry is the last one to carry it. *)
Lemma last_entry_named name l :
  Forall (fun sub => occurrences colon sub = 1) l ->
  Forall (fun sub => hd EmptyString (split colon sub) <> name) l \/
  exists l1 out l2,
    l = l1 ++ (name +:+ ":" +:+ out) :: l2 /\
    split colon (name +:+ ":" +:+ out) = [name; out] /\
    Forall (fun sub => hd EmptyString (split colon sub) <> name) l2.
Proof.
  induction l as [|sub l IH]; intros Hall; [left; constructor|].
  inversion Hall as [|? ? Hsub Hl]; subst.
  destruct (IH Hl) as [Hnone | (l1 & out & l2 & -> & Hs & Hl2)].
  - pose proof (unpack2_split sub) as Hu.
    destruct (unpack2 (split colon sub)) as [[n o]|e]; [|tauto].
    destruct Hu as [Hs _].
    destruct (decide (n = name)) as [->|Hne].
    + right. exists [], o, l. pose proof Hs as Hs'.
      apply split_two in Hs' as (-> & _).
      split; [reflexivity|]. split; [exact Hs | exact Hnone].
    + left. constructor; [|exact Hnone]. rewrite Hs. exact Hne.
  - right. exists (sub :: l1), out, l2. auto.
Qed.

(** A list that parses binds a name to the dummy of the last entry that
    carries it, and binds nothing to a name no entry carries. *)
Lemma parse_lookup subs res name :
  parse_substitute_output subs = Ok res ->
  (Forall (fun sub => hd EmptyString (split colon sub) <> name) (entries subs) /\
   res !! name = None) \/
  exists l1 out l2,
    entries subs = l1 ++ (name +:+ ":" +:+ out) :: l2 /\
    Forall (fun sub => hd EmptyString (split colon sub) <> name) l2 /\
    res !! name = Some (DummyTask out name).
Proof.
  rewrite parse_substitute_output_entries. intros Hp.
  assert (Hall : Forall (fun sub => occurrences colon sub = 1) (entries subs))
    by (apply (parse_loop_ok_iff _ ∅); eauto).
  destruct (last_entry_named name _ Hall) as [Hnone | (l1 & out & l2 & Hl & Hs & Hl2)].
  - left. split; [exact Hnone|].
    rewrite (parse_loop_other _ _ _ _ Hp Hnone). apply lookup_empty.
  - right. exists l1, out, l2. split; [exact Hl|]. split; [exact Hl2|].
    rewrite Hl in Hp. eapply parse_loop_last; eauto.
Qed.

(** ** The sweeper on any tree *)

Lemma only_weaken {A} (P Q : event -> bool) (m : M A) :
  only P m -> (forall ev, P ev = true -> Q ev = true) -> only Q m.
Proof.
  intros Hm HPQ d r d' evs H.
  eapply Forall_impl; [exact (Hm _ _ _ _ H) | exact HPQ].
Qed.

Lemma run_parts {A} (x : result A * dir * list event) :
  x = (result_of x, final_dir x, events_of x).
Proof. now destruct x as [[r d] evs]. Qed.

Lemma clean_fold_no_proc cwd :
  assoc "proc" (subdirs cwd) = None ->
  clean_fold cwd = (Raise OSError, cwd, [Rmdir ["proc"] (Raise OSError)]).
Proof.
  intros H. unfold clean_fold, bind, os_walk, os_rmdir. rewrite H. simpl.
  rewrite H. reflexivity.
Qed.

Lemma file_paths_eq top subs fs :
  file_paths top (Dir subs fs)
  = map (fun f => top ++ [f]) fs ++ file_paths_in top subs.
Proof.
  simpl. f_equal. induction subs as [|[n s] l IH]; simpl; congruence.
Qed.

Lemma remove_entry_files n top l :
  assoc n l = Some (Dir [] []) ->
  file_paths_in top (remove_entry n l) = file_paths_in top l.
Proof.
  induction l as [|[m c] l IH]; simpl; intros H; [reflexivity|].
  destruct (String.eqb n m).
  - injection H as ->. reflexivity.
  - simpl. now rewrite IH.
Qed.

Lemma replace_entry_files n s s' top l :
  assoc n l = Some s ->
  (forall top', file_paths top' s' = file_paths top' s) ->
  file_paths_in top (replace_entry n s' l) = file_paths_in top l.
Proof.
  intros Hs Heq. induction l as [|[m c] l IH]; simpl in *; [reflexivity|].
  destruct (String.eqb n m); simpl.
  - injection Hs as ->. now rewrite Heq.
  - now rewrite IH.
Qed.

Lemma remove_replace n x l :
  remove_entry n (replace_entry n x l) = remove_entry n l.
Proof.
  induction l as [|[m c] l IH]; simpl; [reflexivity|].
  destruct (String.eqb n m) eqn:Hnm; simpl; rewrite Hnm; congruence.
Qed.

Lemma rmdir_cons n p d :
  p <> [] ->
  rmdir (n :: p) d =
  match assoc n (subdirs d) with
  | Some s =>
      match rmdir p s with
      | Ok s' => Ok (Dir (replace_entry n s' (subdirs d)) (files d))
      | Raise e => Raise e
      end
  | None => Raise OSError
  end.
Proof. destruct p; [contradiction | reflexivity]. Qed.

(** [os.rmdir] removes an empty directory: the files stay. *)
Lemma rmdir_keeps_files p : forall d d',
  rmdir p d = Ok d' -> forall top, file_paths top d' = file_paths top d.
Proof.
  induction p as [|n p IH]; intros [subs fs] d' H top; [discriminate|].
  destruct p as [|x q].
  - simpl in H.
    destruct (assoc n subs) as [[[|e l] [|f fs']]|] eqn:Hn; try discriminate.
    injection H as <-.
    rewrite !file_paths_eq, remove_entry_files by exact Hn. reflexivity.
  - rewrite rmdir_cons in H by discriminate. cbn [subdirs files] in H.
    destruct (assoc n subs) as [s|] eqn:Hn; [|discriminate].
    destruct (rmdir (x :: q) s) as [s'|e] eqn:Hr; [|discriminate].
    injection H as <-.
    rewrite !file_paths_eq, (replace_entry_files n s s'); eauto.
Qed.

Lemma keeps_ret {A} (a : A) : keeps_files (ret a).
Proof. intros d r d' evs [= <- <- <-] top. reflexivity. Qed.

Lemma keeps_bind {A B} (m : M A) (f : A -> M B) :
  keeps_files m -> (forall a, keeps_files (f a)) -> keeps_files (bind m f).
Proof.
  intros Hm Hf d r d' evs H top.
  apply bind_inv in H as [(e & H & ->) | (a & d1 & evs1 & evs2 & H1 & H2 & ->)].
  - eapply Hm; eauto.
  - rewrite (Hf _ _ _ _ _ H2 top). eapply Hm; eauto.
Qed.

Lemma keeps_for_each {A} (body : A -> M unit) l :
  (forall x, keeps_files (body x)) -> keeps_files (for_each body l).
Proof.
  intros Hb. induction l as [|x l IH]; simpl.
  - apply keeps_ret.
  - apply keeps_bind; auto.
Qed.

Lemma keeps_os_rmdir p : keeps_files (os_rmdir p).
Proof.
  intros d r d' evs. unfold os_rmdir.
  destruct (rmdir p d) as [d1|e] eqn:Hr; intros [= <- <- <-] top.
  - eapply rmdir_keeps_files; eauto.
  - reflexivity.
Qed.

Lemma keeps_clean_fold_loop entries : forall b,
  keeps_files (clean_fold_loop entries b).
Proof.
  induction entries as [|[[root dirs] fs] entries IH]; simpl; intros b.
  - apply keeps_ret.
  - apply keeps_bind; [|intros; apply IH].
    destruct (match fs with [] => b | _ :: _ => false end).
    + apply keeps_bind; [|intros; apply keeps_ret].
      apply keeps_for_each. intros; apply keeps_os_rmdir.
    + apply keeps_ret.
Qed.

Lemma keeps_clean_fold : keeps_files clean_fold.
Proof.
  unfold clean_fold. apply keeps_bind.
  - intros d r d' evs. unfold os_walk.
    destruct (assoc "proc" (subdirs d)); intros [= <- <- <-]; reflexivity.
  - intros entries. apply keeps_bind; [apply keeps_clean_fold_loop|].
    intros [|]; [apply keeps_os_rmdir | apply keeps_ret].
Qed.

Lemma only_os_rmdir_below n q : only (is_rmdir_below n) (os_rmdir (n :: q)).
Proof.
  intros d r d' evs. unfold os_rmdir.
  destruct (rmdir (n :: q) d); intros [= <- <- <-]; repeat constructor;
    simpl; apply String.eqb_refl.
Qed.

(** Removals issued for the triples of a walk below [n]. *)
Lemma only_loop_below n entries : forall b,
  only (is_rmdir_below n) (clean_fold_loop (map (enter n) entries) b).
Proof.
  induction entries as [|[[root dirs] fs] entries IH]; simpl; intros b.
  - apply only_ret.
  - apply only_bind; [|intros; apply IH].
    destruct (match fs with [] => b | _ :: _ => false end).
    + apply only_bind; [|intros; apply only_ret].
      apply only_for_each. intros x.
      apply (only_os_rmdir_below n (root ++ [x])).
    + apply only_ret.
Qed.

Lemma only_below_clean_fold : only (is_rmdir_below "proc") clean_fold.
Proof.
  intros d r d' evs H. unfold clean_fold in H.
  apply bind_inv in H as [(e & H & _) | (entries & d1 & e1 & e2 & H1 & H2 & ->)].
  { unfold os_walk in H. destruct (assoc "proc" (subdirs d)); discriminate. }
  assert (Hentries : e1 = [] /\ exists l, entries = map (enter "proc") l).
  { unfold os_walk in H1. destruct (assoc "proc" (subdirs d)) as [s|].
    - injection H1 as <- _ <-. split; [reflexivity|].
      exists (walk [] s). apply walk_enter.
    - injection H1 as <- _ <-. split; [reflexivity|]. now exists []. }
  destruct Hentries as [-> [l ->]]. simpl.
  revert H2. apply only_bind; [apply only_loop_below|].
  intros [|]; [apply only_os_rmdir_below | apply only_ret].
Qed.

Lemma is_rmdir_below_inv n ev :
  is_rmdir_below n ev = true -> exists q r, ev = Rmdir (n :: q) r.
Proof.
  destruct ev as [| | | | | | | | | | | |p r]; try discriminate.
  destruct p as [|m q]; [discriminate|]. simpl.
  intros H. apply String.eqb_eq in H as ->. eauto.
Qed.

(** The removals of a run of the loop that returns normally: the
    sub-directories of the triples met while the flag is set. *)
Lemma rmdir_each_trace root dirs : forall d d' evs,
  rmdir_each root dirs d = (Ok tt, d', evs) ->
  evs = map (fun p => Rmdir p (Ok tt)) (map (fun name => root ++ [name]) dirs).
Proof.
  unfold rmdir_each. induction dirs as [|x dirs IH]; simpl; intros d d' evs H.
  - now injection H as <- <-.
  - apply bind_inv in H as [(e & _ & [=]) | (a & d1 & e1 & e2 & H1 & H2 & ->)].
    unfold os_rmdir in H1. destruct (rmdir (root ++ [x]) d); [|discriminate].
    injection H1 as _ <- <-. simpl. f_equal. eapply IH; eauto.
Qed.

Lemma loop_trace entries : forall b d b' d' evs,
  clean_fold_loop entries b d = (Ok b', d', evs) ->
  evs = map (fun p => Rmdir p (Ok tt)) (if b then doomed entries else []).
Proof.
  induction entries as [|[[root dirs] fs] entries IH]; intros b d b' d' evs H.
  - simpl in H. injection H as <- <- <-. now destruct b.
  - simpl in H.
    apply bind_inv in H as [(e & _ & [=]) | (b1 & d1 & e1 & e2 & H1 & H2 & ->)].
    apply IH in H2. subst e2.
    destruct fs as [|f fs]; [destruct b|].
    + apply bind_inv in H1 as [(e & _ & [=]) | (u & d2 & e3 & e4 & H3 & H4 & ->)].
      injection H4 as <- <- <-. destruct u.
      apply rmdir_each_trace in H3 as ->.
      unfold doomed. simpl. rewrite app_nil_r, map_app. reflexivity.
    + injection H1 as <- <- <-. reflexivity.
    + injection H1 as <- <- <-. simpl. now destruct b.
Qed.

(** ** Sweeping twice *)

Lemma resweep_children l :
  Forall (fun e => sweeps_once (snd e)) l ->
  forall done fs b,
    NoDup (map fst (done ++ l)) ->
    exists l' evs,
      clean_fold_loop (walk_dirs [] l) b (Dir (done ++ l) fs)
      = (Ok (b && (sum_files l =? 0)%nat), Dir (done ++ l') fs, evs) /\
      map fst l' = map fst l /\
      sum_files l' = sum_files l /\
      (b && (sum_files l =? 0)%nat = true ->
       Forall (fun e => snd e = Dir [] []) l') /\
      (forall done',
         map fst done' = map fst done ->
         clean_fold_loop (walk_dirs [] l') b (Dir (done' ++ l') fs)
         = (Ok (b && (sum_files l =? 0)%nat), Dir (done' ++ l') fs, [])).
Proof.
  induction l as [|[n c] l IH]; intros Hsw done fs b Hnd.
  - exists [], []. simpl. rewrite andb_true_r. repeat split; auto.
  - inversion Hsw as [|? ? Hc Hl]; subst. simpl in Hc.
    destruct (Hc b) as (c' & evs1 & Hrun & Hcount & Hempty & Hre).
    assert (Hn : ~ In n (map fst done)).
    { rewrite map_app in Hnd. simpl in Hnd.
      apply NoDup_app in Hnd as (_ & Hdis & _).
      intros Hin. apply (Hdis n); [now apply list_elem_of_In | left]. }
    pose proof (framed_loop n (walk [] c) b (Dir (done ++ (n, c) :: l) fs)
                  c _ _ _ (assoc_middle n c done l Hn) Hrun) as Hframe.
    unfold graft in Hframe. simpl in Hframe.
    rewrite (replace_middle n c c' done l Hn) in Hframe.
    destruct (IH Hl (done ++ [(n, c')]) fs (b && no_files c))
      as (l' & evs2 & Hrest & Hnames & Hsum & Hall & Hagain).
    { rewrite <- app_assoc. simpl.
      rewrite map_app in *. simpl in *. exact Hnd. }
    rewrite <- app_assoc in Hrest. simpl in Hrest.
    exists ((n, c') :: l'). eexists.
    split.
    { simpl walk_dirs. rewrite loop_app, walk_enter.
      rewrite (bind_ok _ _ _ _ _ _ Hframe), Hrest.
      rewrite <- app_assoc. simpl.
      unfold no_files. rewrite flag_step. reflexivity. }
    split; [simpl; congruence|].
    split; [simpl; congruence|].
    split.
    { simpl. intros Hb. rewrite <- flag_step in Hb.
      apply andb_true_iff in Hb as [Hb1 Hb2].
      constructor; simpl.
      + apply Hempty. exact Hb1.
      + apply Hall. unfold no_files. now rewrite Hb1, Hb2. }
    intros done' Hd'.
    assert (Hn' : ~ In n (map fst done')) by (rewrite Hd'; exact Hn).
    pose proof (framed_loop n (walk [] c') b (Dir (done' ++ (n, c') :: l') fs)
                  c' _ _ _ (assoc_middle n c' done' l' Hn') Hre) as Hframe'.
    unfold graft in Hframe'. simpl in Hframe'.
    rewrite (replace_middle n c' c' done' l' Hn') in Hframe'.
    specialize (Hagain (done' ++ [(n, c')])).
    rewrite <- app_assoc in Hagain. simpl in Hagain.
    simpl walk_dirs. rewrite loop_app, walk_enter.
    rewrite (bind_ok _ _ _ _ _ _ Hframe'), Hagain.
    + unfold no_files. rewrite flag_step. reflexivity.
    + rewrite !map_app, Hd'. reflexivity.
Qed.

Lemma resweep_tree : forall s, wf_dir s = true -> sweeps_once s.
Proof.
  induction s as [subs fs IH] using dir_rect'. intros Hwf b.
  apply wf_dir_eq in Hwf as [Hnd Hwfs].
  assert (Hsw : Forall (fun e => sweeps_once (snd e)) subs).
  { clear Hnd. induction subs as [|e subs IHs]; constructor.
    - inversion IH; inversion Hwfs; subst. auto.
    - inversion IH; inversion Hwfs; subst. auto. }
  destruct (resweep_children subs Hsw [] fs b Hnd)
    as (subs' & evs1 & Hrun & Hnames & Hsum & Hall & Hagain).
  specialize (Hagain [] eq_refl).
  simpl in Hrun, Hagain.
  rewrite walk_eq, loop_app, (bind_ok _ _ _ _ _ _ Hrun).
  unfold no_files. rewrite !count_files_eq.
  destruct fs as [|f fs].
  - simpl length. simpl Nat.add.
    destruct (b && (sum_files subs =? 0)%nat) eqn:Hb.
    + destruct (rmdir_each_empty subs' [] (Hall eq_refl)) as [evs2 Hevs2].
      simpl. rewrite <- Hnames.
      unfold bind. rewrite Hevs2. simpl.
      do 2 eexists. split; [reflexivity|]. split; [|split; [reflexivity|]].
      * apply andb_true_iff in Hb as [_ Hb]. apply Nat.eqb_eq in Hb.
        simpl. lia.
      * apply andb_true_iff in Hb as [-> _]. reflexivity.
    + simpl. unfold bind, ret. simpl.
      do 2 eexists. split; [reflexivity|]. split; [|split; [discriminate|]].
      * rewrite count_files_eq. simpl. lia.
      * rewrite walk_eq, loop_app, (bind_ok _ _ _ _ _ _ Hagain).
        reflexivity.
  - simpl. rewrite andb_false_r.
    destruct (b && (sum_files subs =? 0)%nat) eqn:Hb;
      unfold bind, ret; simpl;
      (do 2 eexists; split; [reflexivity|]; split; [|split; [discriminate|]]).
    1,3: rewrite count_files_eq; simpl; lia.
    all: rewrite walk_eq, loop_app, (bind_ok _ _ _ _ _ _ Hagain);
      reflexivity.
Qed.

Lemma wf_dir_assoc n cwd s :
  wf_dir cwd = true -> assoc n (subdirs cwd) = Some s -> wf_dir s = true.
Proof.
  destruct cwd as [subs fs]. intros Hwf Hs.
  apply wf_dir_eq in Hwf as [_ Hwfs]. cbn [subdirs] in Hs.
  induction subs as [|[m c] subs IH]; [discriminate|].
  inversion Hwfs as [|? ? Hc Hl]; subst. cbn [assoc] in Hs. simpl in Hc.
  destruct (String.eqb n m); [injection Hs as <-; exact Hc | auto].
Qed.

(** The run of [clean_fold] on a well-formed tree in which [proc] is a
    directory: the tree it leaves, the removals it issues, and what the loop
    does when run again on what is left of [proc]. *)
Lemma clean_fold_run cwd s :
  wf_dir cwd = true ->
  assoc "proc" (subdirs cwd) = Some s ->
  exists s',
    count_files s' = count_files s /\
    clean_fold_loop (walk [] s') true s' = (Ok (no_files s), s', []) /\
    clean_fold cwd =
    (Ok tt,
     (if no_files s then Dir (remove_entry "proc" (subdirs cwd)) (files cwd)
      else graft "proc" s' cwd),
     map (fun p => Rmdir p (Ok tt))
         (doomed (walk ["proc"] s)
          ++ (if no_files s then [["proc"]] else []))).
Proof.
  intros Hwf Hs. pose proof (wf_dir_assoc _ _ _ Hwf Hs) as Hwfs.
  destruct (resweep_tree s Hwfs true) as (s' & evs1 & Hrun & Hcount & Hempty & Hre).
  simpl andb in *.
  pose proof (framed_loop "proc" (walk [] s) true cwd s _ _ _ Hs Hrun) as Hframe.
  rewrite <- walk_enter in Hframe.
  rewrite (loop_trace _ _ _ _ _ _ Hframe) in Hframe.
  exists s'. split; [exact Hcount|]. split; [exact Hre|].
  unfold clean_fold.
  erewrite bind_ok; [|unfold os_walk; rewrite Hs; reflexivity].
  rewrite (bind_ok _ _ _ _ _ _ Hframe).
  destruct (no_files s) eqn:Hz.
  - rewrite (Hempty eq_refl).
    unfold os_rmdir. rewrite rmdir_single by (apply assoc_graft; eauto).
    unfold graft. simpl. rewrite remove_replace, map_app. reflexivity.
  - simpl. rewrite !app_nil_r. reflexivity.
Qed.

(** ** Where an event of a run comes from *)

(** A class of events that holds every [clean()] call and removal. *)
Ltac cleanup_class :=
  let ev := fresh "ev" in
  intros ev; destruct ev; simpl; intros;
  first [reflexivity | discriminate].

(** Every event of a computation lies outside of a class: the steps that
    cannot emit such an event are dismissed one by one. *)
Ltac solve_avoid :=
  cbv beta zeta;
  repeat first
    [ apply only_ret | apply only_raise | apply only_lift
    | apply only_emit; reflexivity
    | apply only_call_pure; intros; reflexivity
    | apply only_call_fs; intros; reflexivity
    | eapply only_weaken; [apply only_cleanup | cleanup_class]
    | apply only_bind; [|intros ?; cbv beta zeta]
    | progress unfold print, exit, getitem, os_path_dirname, add_str,
        create_task, mirror
    | match goal with
      | |- only _ (if ?c then _ else _) => destruct c
      | |- only _ (match ?x with _ => _ end) => destruct x
      end ].

(** An event outside of the class of a step is not an event of the step. *)
Ltac absurd_class P H Hin :=
  match type of H with
  | ?m ?d = _ =>
      match type of Hin with
      | In ?ev _ =>
          let Ho := fresh in
          assert (Ho : only P m) by solve_avoid;
          first
            [ exact (not_in_class P ev _ (Ho _ _ _ _ H) eq_refl Hin)
            | match goal with
              | Hf : P ev = false |- _ =>
                  exact (not_in_class P ev _ (Ho _ _ _ _ H) Hf Hin)
              end ]
      end
  end.

(** One step of a run: the step raised or returned, and the event looked
    for is in neither case one of the step. *)
Ltac skip_as P H Hin x d1 Hm :=
  let e := fresh "e" in
  let evs1 := fresh "evs" in let evs2 := fresh "evs" in
  apply bind_inv in H as [(e & H & ->) | (x & d1 & evs1 & evs2 & Hm & H & ->)];
  [ exfalso; absurd_class P H Hin
  | apply in_app_or in Hin as [Hin | Hin];
    [ exfalso; absurd_class P Hm Hin | cbv beta zeta in H ] ].

Ltac skip P H Hin :=
  let x := fresh "x" in let d1 := fresh "d" in let Hm := fresh "Hm" in
  skip_as P H Hin x d1 Hm; clear Hm.

(** One step of a run that returns normally. *)
Ltac ok_as H x d1 Hm :=
  let e := fresh "e" in
  let evs1 := fresh "evs" in let evs2 := fresh "evs" in
  apply bind_inv in H as [(e & _ & [=]) | (x & d1 & evs1 & evs2 & Hm & H & ->)];
  cbv beta zeta in H.

Ltac ok_step H :=
  let x := fresh "x" in let d1 := fresh "d" in let Hm := fresh "Hm" in
  ok_as H x d1 Hm; clear Hm.

Ltac in_trace := rewrite ?in_app_iff; simpl; auto 20.

(** ** Cutting a trace at an event *)

Lemma peel (P : event -> bool) l1 : forall l2 pre x post,
  Forall (fun ev => P ev = true) l1 ->
  P x = false ->
  l1 ++ l2 = pre ++ x :: post ->
  exists pre', pre = l1 ++ pre' /\ l2 = pre' ++ x :: post.
Proof.
  induction l1 as [|y l1 IH]; intros l2 pre x post Hall Hx Heq.
  - exists pre. auto.
  - inversion Hall as [|? ? Hy Hl]; subst.
    destruct pre as [|z pre]; simpl in Heq.
    + injection Heq as -> _. congruence.
    + injection Heq as <- Heq.
      destruct (IH _ _ _ _ Hl Hx Heq) as (pre' & -> & ->). exists pre'. auto.
Qed.

Lemma peel_here (P : event -> bool) y rest pre x post :
  Forall (fun ev => P ev = true) rest ->
  P x = false ->
  y :: rest = pre ++ x :: post ->
  pre = [] /\ y = x /\ rest = post.
Proof.
  intros Hall Hx Heq. destruct pre as [|z pre]; simpl in Heq.
  - injection Heq as -> ->. auto.
  - injection Heq as _ ->. exfalso.
    exact (not_in_class P x _ Hall Hx (in_elt x pre post)).
Qed.

(** The events of a step belong to a class. *)
Ltac class_of P Hm :=
  match type of Hm with
  | ?m ?d = _ =>
      let Ho := fresh in
      assert (Ho : only P m) by solve_avoid;
      exact (Ho _ _ _ _ Hm)
  end.

(** One step of a run whose trace is cut at an event the step cannot emit:
    the events of the step lie before the cut. *)
Ltac peel_as P H Hdec x d1 Hm HF :=
  let e := fresh "e" in
  let evs1 := fresh "evs" in let evs2 := fresh "evs" in
  let Hin := fresh "Hin" in let pre' := fresh "pre" in let Hd := fresh "Hd" in
  apply bind_inv in H as [(e & H & ->) | (x & d1 & evs1 & evs2 & Hm & H & ->)];
  [ exfalso;
    match type of Hdec with
    | _ = ?pre ++ ?ev :: ?post =>
        assert (Hin : In ev (pre ++ ev :: post)) by apply in_elt;
        rewrite <- Hdec in Hin
    end;
    absurd_class P H Hin
  | assert (HF : Forall (fun ev => P ev = true) evs1) by class_of P Hm;
    match type of Hdec with
    | _ = _ ++ ?ev :: _ =>
        destruct (peel P evs1 evs2 _ ev _ HF eq_refl Hdec) as (pre' & -> & Hd)
    end;
    clear Hdec; rename Hd into Hdec; cbv beta zeta in H ].

(** The cut falls on the first event left. *)
Ltac here P Hdec HQ Hh :=
  match type of Hdec with
  | ?y :: ?rest = ?pre ++ ?ev :: ?post =>
      pose proof (peel_here P y rest pre ev post HQ eq_refl Hdec) as Hh
  end.

Ltac peel_step P H Hdec :=
  let x := fresh "x" in let d1 := fresh "d" in
  let Hm := fresh "Hm" in let HF := fresh "HF" in
  peel_as P H Hdec x d1 Hm HF; clear Hm HF.

Ltac peel_keep P H Hdec :=
  let x := fresh "x" in let d1 := fresh "d" in
  let Hm := fresh "Hm" in let HF := fresh "HF" in
  peel_as P H Hdec x d1 Hm HF; clear Hm.

Section DriverFacts.

Variable E : Env.

Lemma main_context a d r d' evs sample cfg n r0 :
  main E a d = (r, d', evs) ->
  In (ContextInitialize sample cfg n r0) evs ->
  exists cfg0 ph,
    In (YamlLoad (Ok cfg0)) evs /\
    cfg0 !! "phigaro" = Some ph /\
    cfg = <["phigaro" := set_options E a (map lower (extension a)) ph]> cfg0 /\
    sample = sample_name E (fasta_file a) +:+ "-" +:+ uuid4_hex E /\
    n = threads a.
Proof.
  intros H Hin. unfold main in H.
  do 4 skip (avoid is_context) H Hin.
  skip_as (avoid is_context) H Hin cfg0 d5 Hyaml.
  skip_as (avoid is_context) H Hin ph d6 Hph.
  do 2 skip (avoid is_context) H Hin.
  unfold call_pure in Hyaml. injection Hyaml as Hyaml _ <-.
  unfold getitem in Hph.
  destruct (cfg0 !! "phigaro") as [ph'|] eqn:Hlook; [|discriminate].
  injection Hph as -> _ <-.
  assert (Hhere : forall tl,
            In (ContextInitialize sample cfg n r0)
               [ContextInitialize
                  (sample_name E (fasta_file a) +:+ "-" +:+ uuid4_hex E)
                  (<["phigaro" := set_options E a (map lower (extension a)) ph]> cfg0)
                  (threads a) tl] ->
            cfg = <["phigaro" := set_options E a (map lower (extension a)) ph]> cfg0 /\
            sample = sample_name E (fasta_file a) +:+ "-" +:+ uuid4_hex E /\
            n = threads a).
  { intros tl [Heq | []]. injection Heq as <- <- <- _. auto. }
  exists cfg0, ph. rewrite Hyaml. split; [in_trace|]. split; [exact Hlook|].
  apply bind_inv in H as [(e & H & ->) | (u & d8 & e9 & e10 & Hm & H & ->)].
  - unfold call_pure in H. injection H as _ _ <-. eapply Hhere; eauto.
  - apply in_app_or in Hin as [Hin | Hin].
    + unfold call_pure in Hm. injection Hm as _ _ <-. eapply Hhere; eauto.
    + exfalso. absurd_class (avoid is_context) H Hin.
Qed.

Lemma create_task_inv subs cls args d t d1 evs1 :
  create_task E subs cls args d = (Ok t, d1, evs1) ->
  t = stage E subs cls args.
Proof.
  unfold create_task, stage, bind, emit, print, ret. simpl.
  destruct (subs !! class_task_name E cls); simpl; now intros [= <- _ _].
Qed.


(** What a substitute returned for a stage is. *)
Lemma stage_cases subs substitutions cls args :
  parse_substitute_output subs = Ok substitutions ->
  (Forall (fun sub => hd EmptyString (split colon sub) <> class_task_name E cls)
          (entries subs) /\
   stage E substitutions cls args = Instance cls args) \/
  exists l1 out l2,
    entries subs = l1 ++ (class_task_name E cls +:+ ":" +:+ out) :: l2 /\
    Forall (fun sub => hd EmptyString (split colon sub) <> class_task_name E cls)
           l2 /\
    stage E substitutions cls args = DummyTask out (class_task_name E cls).
Proof.
  intros Hp. unfold stage.
  destruct (parse_lookup _ _ (class_task_name E cls) Hp)
    as [[Hnone ->] | (l1 & out & l2 & Hl & Hl2 & ->)].
  - left. auto.
  - right. exists l1, out, l2. auto.
Qed.

Lemma mirror_run a ext p d r d' evs :
  mirror E a ext p d = (r, d', evs) ->
  (forall name ls r0, In (WriteFile name ls r0) evs ->
     "tsv" ∈ ext /\ In (Open p (Ok ls)) evs /\
     exists s, output a = VStr s /\ name = s +:+ ".tsv") /\
  (forall ls, In (WriteStdout ls) evs ->
     "stdout" ∈ ext /\ In (Open p (Ok ls)) evs /\ In CloseStdout evs) /\
  (r = Ok tt -> "tsv" ∈ ext ->
   exists name ls, In (WriteFile name ls (Ok tt)) evs) /\
  (r = Ok tt -> "stdout" ∈ ext -> exists ls, In (WriteStdout ls) evs).
Proof.
  unfold mirror, bind, call_fs, add_str, emit, ret, raise.
  destruct (bool_decide ("tsv" ∈ ext)) eqn:Ht;
    destruct (bool_decide ("stdout" ∈ ext)) eqn:Hs; simpl;
    try apply bool_decide_eq_true in Ht; try apply bool_decide_eq_true in Hs;
    try apply bool_decide_eq_false in Ht; try apply bool_decide_eq_false in Hs;
    destruct (open_read E p d) as [f|e]; simpl;
    try (destruct (output a) as [|b|z|s]; simpl;
         try destruct (open_write E (s +:+ ".tsv") f d) as [[[]|e] dw]; simpl);
    intros [= <- <- <-];
    (repeat split; intros; simpl in *;
     repeat match goal with
            | H : _ \/ _ |- _ => destruct H
            | H : False |- _ => destruct H
            | H : @eq event _ _ |- _ =>
                first [discriminate H | injection H as <- <- <- | injection H as <-]
            | H : @eq (result unit) _ _ |- _ => discriminate H
            end;
     try contradiction; eauto 10).
Qed.

(** A copy of the result is written by the block that follows a chain
    that returned normally. *)
Lemma main_mirror a d r d' evs ev :
  main E a d = (r, d', evs) ->
  is_write ev = true ->
  In ev evs ->
  exists ts p dm rm dm' mid,
    In (RunTasksChain ts (Ok p)) evs /\
    mirror E a (map lower (extension a)) p dm = (rm, dm', mid) /\
    In ev mid /\
    (forall ev', In ev' mid -> In ev' evs).
Proof.
  intros H Hw Hin.
  assert (Hf : avoid is_write ev = false) by (unfold avoid; now rewrite Hw).
  unfold main in H.
  do 14 skip (avoid is_write) H Hin.
  skip_as (avoid is_write) H Hin p d15 Hchain.
  unfold call_fs in Hchain.
  match type of Hchain with
  | context [run_tasks_chain E ?ts ?d0] =>
      destruct (run_tasks_chain E ts d0) as [rc dc]
  end.
  injection Hchain as -> _ <-.
  apply bind_inv in H as [(e & H & ->) | (u & d16 & e16 & e17 & Hm & H & ->)].
  - eexists _, p, _, _, _, _.
    split; [in_trace|]. split; [exact H|]. split; [exact Hin|].
    intros; in_trace.
  - apply in_app_or in Hin as [Hin | Hin].
    + eexists _, p, _, _, _, _.
      split; [in_trace|]. split; [exact Hm|]. split; [exact Hin|].
      intros; in_trace.
    + exfalso. absurd_class (avoid is_write) H Hin.
Qed.

(** A run that returns normally has run the chain and the block that
    copies its result, both returning normally. *)
Lemma main_returns a d d' evs :
  main E a d = (Ok tt, d', evs) ->
  exists ts p dm dm' mid,
    In (RunTasksChain ts (Ok p)) evs /\
    mirror E a (map lower (extension a)) p dm = (Ok tt, dm', mid) /\
    (forall ev', In ev' mid -> In ev' evs).
Proof.
  intros H. unfold main in H.
  do 14 ok_step H.
  ok_as H p d15 Hchain.
  ok_as H u d16 Hm.
  unfold call_fs in Hchain.
  match type of Hchain with
  | context [run_tasks_chain E ?ts ?d0] =>
      destruct (run_tasks_chain E ts d0) as [rc dc]
  end.
  injection Hchain as -> _ <-. destruct u.
  eexists _, p, _, _, _.
  split; [in_trace|]. split; [exact Hm|]. intros; in_trace.
Qed.

Lemma only_clean_in_proc t : only stays_in_proc (clean E t).
Proof.
  destruct t; simpl.
  - apply only_call_fs. reflexivity.
  - apply only_emit. reflexivity.
Qed.

Lemma only_clean_fold_in_proc : only stays_in_proc clean_fold.
Proof.
  eapply only_weaken; [apply only_below_clean_fold|].
  intros ev Hev. destruct ev; try reflexivity. exact Hev.
Qed.

(** The only constructions a run records are those of instances. *)
Lemma only_instances a : only constructs_instance (main E a).
Proof.
  unfold main.
  do 16 (apply only_bind; [solve_avoid | intros ?; cbv beta zeta]).
  solve_avoid.
Qed.

(** The [clean()] calls of the loop over the tasks: all return, or the
    first one that raises ends the loop. *)
Lemma for_each_clean_inv ts : forall d r d' cs,
  for_each (clean E) ts d = (r, d', cs) ->
  (r = Ok tt /\ cs = map (fun t => Clean t (Ok tt)) ts) \/
  (exists ts1 t ts2 e,
     ts = ts1 ++ t :: ts2 /\ r = Raise e /\
     cs = map (fun t => Clean t (Ok tt)) ts1 ++ [Clean t (Raise e)]).
Proof.
  induction ts as [|t ts IH]; simpl; intros d r d' cs H.
  - injection H as <- _ <-. left. auto.
  - apply bind_inv in H as [(e & H & ->) | (u & d1 & e1 & e2 & H1 & H2 & ->)].
    + right. exists [], t, ts, e. split; [reflexivity|]. split; [reflexivity|].
      destruct t as [cls args | out name]; simpl in H.
      * unfold call_fs in H. destruct (real_clean E _ d) as [rc dc].
        now injection H as -> _ <-.
      * discriminate.
    + rewrite (clean_run E _ _ _ _ _ H1).
      destruct (IH _ _ _ _ H2) as [[-> ->] | (ts1 & t' & ts2 & e & -> & -> & ->)].
      * left. auto.
      * right. exists (t :: ts1), t', ts2, e. auto.
Qed.


(** What follows the return of the chain: the copy of its result and
    then, when the copy returns and cleanup is not disabled, the [clean()]
    calls and [clean_fold]. *)
Lemma main_after_chain a d r d' evs pre ts p post :
  main E a d = (r, d', evs) ->
  evs = pre ++ RunTasksChain ts (Ok p) :: post ->
  Forall (fun ev => is_cleanup ev = false) pre /\
  length ts = 4 /\
  exists d0 dm rm dm' mid,
    run_tasks_chain E ts d0 = (Ok p, dm) /\
    mirror E a (map lower (extension a)) p dm = (rm, dm', mid) /\
    ((exists e, rm = Raise e /\ r = Raise e /\ d' = dm' /\ post = mid) \/
     (rm = Ok tt /\ no_cleanup a = true /\
      r = Ok tt /\ d' = dm' /\ post = mid) \/
     (rm = Ok tt /\ no_cleanup a = false /\
      exists cl,
        (for_each (clean E) ts ;; clean_fold) dm' = (r, d', cl) /\
        post = mid ++ cl)).
Proof.
  intros H Hdec. unfold main in H.
  do 14 peel_keep is_assembly H Hdec.
  apply bind_inv in H as [(e & H & ->) | (p' & d15 & e15 & e16 & Hm & H & ->)].
  { exfalso. unfold call_fs in H.
    destruct (run_tasks_chain E _ d13) as [rc dc].
    injection H as -> _ <-.
    assert (HQ : Forall (fun ev => avoid is_chain ev = true) []) by constructor.
    here (avoid is_chain) Hdec HQ Hh. destruct Hh as (_ & [=] & _). }
  assert (HQ : Forall (fun ev => avoid is_chain ev = true) e16)
    by class_of (avoid is_chain) H.
  unfold call_fs in Hm.
  destruct (run_tasks_chain E _ d13) as [rc dc] eqn:Hchain.
  injection Hm as -> <- <-. cbn [app] in Hdec.
  here (avoid is_chain) Hdec HQ Hh. destruct Hh as (-> & [= <- <-] & ->).
  split.
  { repeat (apply Forall_app; split;
            [eapply Forall_class; [apply assembly_not_cleanup | eassumption]|]).
    constructor. }
  split; [reflexivity|].
  exists d13, dc.
  apply bind_inv in H as [(e & H & ->) | (u & d16 & mid & e17 & Hm & H & ->)].
  - exists (Raise e), d', post.
    split; [exact Hchain|]. split; [exact H|]. left. eauto.
  - destruct u. exists (Ok tt), d16, mid.
    split; [exact Hchain|]. split; [exact Hm|].
    destruct (no_cleanup a) eqn:Hnc; simpl in H.
    + injection H as <- <- <-. right; left. rewrite app_nil_r. auto.
    + right; right. eauto.
Qed.

Lemma only_mirror a ext p : only is_mirror (mirror E a ext p).
Proof. solve_avoid. Qed.

(** Where the cleanup events of a run can be: nowhere when the chain
    raised, and only in a run whose chain returned and whose cleanup is not
    disabled. *)
Lemma cleanup_events_inv a d r d' evs :
  main E a d = (r, d', evs) ->
  (forall ts e, In (RunTasksChain ts (Raise e)) evs ->
     r = Raise e /\ Forall (fun ev => is_cleanup ev = false) evs) /\
  (forall ev, In ev evs -> is_cleanup ev = true ->
     no_cleanup a = false /\ existsb is_chain_ok evs = true).
Proof.
  intros H. apply main_inv in H.
  destruct H as [[[e ->] Hs] | [_ (pre & ts & Hpre & Hlen & Hrest)]].
  { (* stopped during the setup *)
    split.
    - intros ts e' Hin. exfalso.
      exact (not_in_class is_setup (RunTasksChain ts (Raise e')) _ Hs eq_refl Hin).
    - intros ev Hin Hc. exfalso.
      rewrite Forall_forall in Hs. apply list_elem_of_In, Hs in Hin.
      apply setup_not_cleanup in Hin. congruence. }
  assert (Hpre_c : Forall (fun ev => is_cleanup ev = false) pre)
    by (eapply Forall_class; [apply assembly_not_cleanup | exact Hpre]).
  assert (Hpre_r : forall ts' r', ~ In (RunTasksChain ts' r') pre).
  { intros ts' r'. exact (not_in_class is_assembly (RunTasksChain ts' r') _ Hpre eq_refl). }
  destruct Hrest as [(e & -> & ->) | (p & mid & Hmid & Hrest)].
  { (* the chain raised *)
    split.
    - intros ts' e' Hin. apply in_app_or in Hin as [Hin | [Hin | []]].
      + exfalso. eapply Hpre_r; eauto.
      + injection Hin as <- <-. split; [reflexivity|].
        apply Forall_app. split; [exact Hpre_c | repeat constructor].
    - intros ev Hin Hc. exfalso.
      apply in_app_or in Hin as [Hin | [<- | []]]; [|discriminate].
      rewrite Forall_forall in Hpre_c.
      apply list_elem_of_In, Hpre_c in Hin. congruence. }
  assert (Hmid_c : Forall (fun ev => is_cleanup ev = false) mid)
    by (eapply Forall_class; [apply mirror_not_cleanup | exact Hmid]).
  assert (Hmid_r : forall ts' r', ~ In (RunTasksChain ts' r') mid).
  { intros ts' r'. exact (not_in_class is_mirror (RunTasksChain ts' r') _ Hmid eq_refl). }
  assert (Hok : forall tl, existsb is_chain_ok (pre ++ RunTasksChain ts (Ok p) :: tl) = true).
  { intros tl. rewrite existsb_app. simpl. apply orb_true_r. }
  destruct Hrest as [(e & -> & ->) | [(Hn & -> & ->) | (Hn & dm & cl & Hc & ->)]].
  - (* the copy of the result raised *)
    split.
    + intros ts' e' Hin. exfalso.
      apply in_app_or in Hin as [Hin | [Hin | Hin]].
      * eapply Hpre_r; eauto.
      * discriminate.
      * eapply Hmid_r; eauto.
    + intros ev Hin Hcl. exfalso.
      assert (Hall : Forall (fun ev => is_cleanup ev = false)
                       (pre ++ RunTasksChain ts (Ok p) :: mid))
        by (apply Forall_app; split; [exact Hpre_c | constructor; auto]).
      rewrite Forall_forall in Hall.
      apply list_elem_of_In, Hall in Hin. congruence.
  - (* cleanup disabled *)
    split.
    + intros ts' e' Hin. exfalso.
      apply in_app_or in Hin as [Hin | [Hin | Hin]].
      * eapply Hpre_r; eauto.
      * discriminate.
      * eapply Hmid_r; eauto.
    + intros ev Hin Hcl. exfalso.
      assert (Hall : Forall (fun ev => is_cleanup ev = false)
                       (pre ++ RunTasksChain ts (Ok p) :: mid))
        by (apply Forall_app; split; [exact Hpre_c | constructor; auto]).
      rewrite Forall_forall in Hall.
      apply list_elem_of_In, Hall in Hin. congruence.
  - (* cleanup ran *)
    pose proof (only_cleanup E ts _ _ _ _ Hc) as Hcl.
    split.
    + intros ts' e' Hin. exfalso.
      apply in_app_or in Hin as [Hin | [Hin | Hin]].
      * eapply Hpre_r; eauto.
      * discriminate.
      * apply in_app_or in Hin as [Hin | Hin].
        -- eapply Hmid_r; eauto.
        -- exact (not_in_class is_cleanup (RunTasksChain ts' (Raise e')) _ Hcl eq_refl Hin).
    + intros ev _ _. split; [exact Hn | apply Hok].
Qed.

End DriverFacts.

(** * The claims *)

(** ** Scratch directory *)

(** C1, as worded, fails: a scratch directory that holds a file somewhere
    is not always left as it was. With [proc/a/x] empty and listed before
    [proc/b/leftover.txt], the walk removes [proc/a/x] before it meets the
    file; [proc] itself and the file stay. *)
Lemma clean_fold_not_preserved_entirely :
  wf_dir leftover_tree = true /\
  assoc "proc" (subdirs leftover_tree) = Some leftover_proc /\
  count_files leftover_proc = 1 /\
  lookup_path ["proc"; "a"; "x"] leftover_tree = Some (Dir [] []) /\
  exists cwd',
    clean_fold leftover_tree
    = (Ok tt, cwd', [Rmdir ["proc"; "a"; "x"] (Ok tt)]) /\
    lookup_path ["proc"; "a"; "x"] cwd' = None /\
    lookup_path ["proc"; "b"] cwd' = Some (Dir [] ["leftover.txt"]).
Proof.
  repeat (split; [reflexivity|]).
  eexists. repeat split; reflexivity.
Qed.

(** What [clean_fold] does to a well-formed tree in which [proc] is a
    directory. *)
Lemma clean_fold_outcome cwd s :
  wf_dir cwd = true ->
  assoc "proc" (subdirs cwd) = Some s ->
  exists cwd' evs,
    clean_fold cwd = (Ok tt, cwd', evs) /\
    (assoc "proc" (subdirs cwd') = None <-> count_files s = 0) /\
    (count_files s <> 0 ->
     exists s', assoc "proc" (subdirs cwd') = Some s' /\
                count_files s' = count_files s) /\
    files cwd' = files cwd /\
    (forall n, n <> "proc" -> assoc n (subdirs cwd') = assoc n (subdirs cwd)).
Proof.
  intros Hwf Hs.
  assert (Hwf' := Hwf). destruct cwd as [subs fs].
  apply wf_dir_eq in Hwf' as [Hnd Hwfs]. cbn [subdirs] in Hs.
  assert (Hwfs_s : wf_dir s = true).
  { clear Hnd Hwf. induction subs as [|[m c] subs IH]; [discriminate|].
    inversion Hwfs as [|? ? Hc Hl]; subst. cbn [assoc] in Hs. simpl in Hc.
    destruct (String.eqb "proc" m); [injection Hs as <-; exact Hc | auto]. }
  destruct (sweep_tree s Hwfs_s true) as (s' & evs1 & Hrun & Hcount & Hempty).
  simpl andb in *.
  pose proof (framed_loop "proc" (walk [] s) true (Dir subs fs) s _ _ _ Hs Hrun)
    as Hframe.
  rewrite <- walk_enter in Hframe.
  unfold clean_fold.
  erewrite bind_ok; [|unfold os_walk; simpl; rewrite Hs; reflexivity].
  rewrite (bind_ok _ _ _ _ _ _ Hframe).
  unfold graft. simpl subdirs. simpl files.
  assert (Hproc : assoc "proc" (replace_entry "proc" s' subs) = Some s')
    by (apply assoc_replace; eauto).
  unfold no_files in *.
  destruct (count_files s =? 0)%nat eqn:Hz.
  - apply Nat.eqb_eq in Hz. rewrite (Hempty eq_refl) in *.
    unfold os_rmdir. rewrite rmdir_single by exact Hproc.
    simpl subdirs. simpl files.
    do 2 eexists. split; [reflexivity|]. simpl.
    split; [|split; [|split]].
    + split; [intros _; exact Hz|]. intros _.
      apply assoc_remove_same. now rewrite map_fst_replace.
    + intros Hne. contradiction.
    + reflexivity.
    + intros n Hn.
      rewrite assoc_remove_other, assoc_replace_other by exact Hn. reflexivity.
  - apply Nat.eqb_neq in Hz.
    do 2 eexists. split; [reflexivity|]. simpl.
    split; [|split; [|split]].
    + rewrite Hproc. split; [discriminate | contradiction].
    + intros _. exists s'. auto.
    + reflexivity.
    + intros n Hn. now apply assoc_replace_other.
Qed.

(** C1, amended: on a well-formed tree in which [proc] is a directory,
    [clean_fold] returns normally and every [os.rmdir] it issues succeeds,
    that is, is applied to an empty directory; it removes [proc] if and only
    if [proc] holds no file at any depth, and otherwise keeps [proc] with
    all its files; nothing beside [proc] changes. *)
Theorem clean_fold_removes_iff_no_file cwd s :
  wf_dir cwd = true ->
  assoc "proc" (subdirs cwd) = Some s ->
  exists cwd' evs,
    clean_fold cwd = (Ok tt, cwd', evs) /\
    Forall (fun ev => is_rmdir_ok ev = true) evs /\
    (assoc "proc" (subdirs cwd') = None <-> count_files s = 0) /\
    (count_files s <> 0 ->
     exists s', assoc "proc" (subdirs cwd') = Some s' /\
                count_files s' = count_files s) /\
    files cwd' = files cwd /\
    (forall n, n <> "proc" -> assoc n (subdirs cwd') = assoc n (subdirs cwd)).
Proof.
  intros Hwf Hs.
  destruct (clean_fold_outcome cwd s Hwf Hs) as (cwd' & evs & Hrun & Hrest).
  exists cwd', evs. split; [exact Hrun|].
  split; [exact (only_ok_clean_fold _ _ _ _ Hrun) | exact Hrest].
Qed.

Lemma clean_fold_removes_iff_no_file_witness :
  wf_dir empty_scratch = true /\
  assoc "proc" (subdirs empty_scratch) = Some empty_proc /\
  exists cwd' evs,
    clean_fold empty_scratch = (Ok tt, cwd', evs) /\
    Forall (fun ev => is_rmdir_ok ev = true) evs /\
    (assoc "proc" (subdirs cwd') = None <-> count_files empty_proc = 0) /\
    (count_files empty_proc <> 0 ->
     exists s', assoc "proc" (subdirs cwd') = Some s' /\
                count_files s' = count_files empty_proc) /\
    files cwd' = files empty_scratch /\
    (forall n, n <> "proc" ->
               assoc n (subdirs cwd') = assoc n (subdirs empty_scratch)).
Proof.
  split; [reflexivity|]. split; [reflexivity|].
  apply (clean_fold_removes_iff_no_file empty_scratch empty_proc); reflexivity.
Defined.

(** ** Substitutions *)

(** C2, as worded, fails: an entry without [:] makes the parser raise
    [ValueError], the error of the unpacking, not a [ConfigurationError]. *)
Lemma missing_separator_not_ConfigurationError :
  parse_substitute_output (Some ["prodigal"]) = Raise ValueError /\
  parse_substitute_output (Some ["prodigal"])
  <> Raise (Exn "ConfigurationError").
Proof.
  split; [reflexivity|].
  intros H. vm_compute in H. discriminate H.
Qed.

(** C2, amended: when some entry of the list holds no [:], the parser
    raises [ValueError] and returns no mapping, and a run of [main] given
    that list ends with an exception without having constructed a task or
    run the chain. *)
Theorem missing_separator_raises_ValueError subs s :
  In s subs ->
  contains colon s = false ->
  parse_substitute_output (Some subs) = Raise ValueError /\
  forall E a d,
    substitute_output a = Some subs ->
    exists e,
      result_of (main E a d) = Raise e /\
      Forall (fun ev => is_task_event ev = false) (events_of (main E a d)).
Proof.
  intros Hin Hs.
  assert (Hparse : parse_substitute_output (Some subs) = Raise ValueError).
  { rewrite parse_substitute_output_list.
    eapply parse_loop_bad_entry; eauto. }
  split; [exact Hparse|].
  intros E a d Ha.
  destruct (main E a d) as [[r d'] evs] eqn:Hmain.
  apply main_inv in Hmain.
  destruct Hmain as [[[e ->] Hsetup] | [[res Hres] _]].
  - exists e. split; [reflexivity|].
    eapply Forall_class; [apply setup_not_task | exact Hsetup].
  - rewrite Ha, Hparse in Hres. discriminate.
Qed.

Lemma missing_separator_raises_ValueError_witness :
  In "prodigal" ["hmmer:hmmer.out"; "prodigal"] /\
  contains colon "prodigal" = false /\
  parse_substitute_output (Some ["hmmer:hmmer.out"; "prodigal"])
  = Raise ValueError.
Proof.
  split; [right; left; reflexivity|]. split; [reflexivity|].
  apply (missing_separator_raises_ValueError
           ["hmmer:hmmer.out"; "prodigal"] "prodigal");
    [right; left; reflexivity | reflexivity].
Defined.




(** C6: when the parser returns a mapping, the mapping holds at most one
    task per name; the slot of a name holds the dummy of the last entry
    that carries this name, and no slot exists for a name no entry
    carries. *)
Theorem parse_last_entry_wins subs res :
  parse_substitute_output (Some subs) = Ok res ->
  NoDup (map_to_list res).*1 /\
  (forall l1 sub l2 name out,
     subs = l1 ++ sub :: l2 ->
     split colon sub = [name; out] ->
     Forall (fun sub' => hd EmptyString (split colon sub') <> name) l2 ->
     res !! name = Some (DummyTask out name)) /\
  (forall name,
     Forall (fun sub => hd EmptyString (split colon sub) <> name) subs ->
     res !! name = None).
Proof.
  rewrite parse_substitute_output_list. intros H.
  split; [apply NoDup_fst_map_to_list|]. split.
  - intros l1 sub l2 name out -> Hsub Hl2.
    eapply parse_loop_last; eauto.
  - intros name Hall.
    rewrite (parse_loop_other _ _ _ _ H Hall). apply lookup_empty.
Qed.

Lemma parse_last_entry_wins_witness :
  parse_substitute_output (Some ["hmmer:first"; "prodigal:genes"; "hmmer:last"])
  = Ok (<["hmmer" := DummyTask "last" "hmmer"]>
          (<["prodigal" := DummyTask "genes" "prodigal"]>
             (<["hmmer" := DummyTask "first" "hmmer"]> ∅))) /\
  (<["hmmer" := DummyTask "last" "hmmer"]>
     (<["prodigal" := DummyTask "genes" "prodigal"]>
        (<["hmmer" := DummyTask "first" "hmmer"]> ∅)) : gmap string task)
  !! "hmmer" = Some (DummyTask "last" "hmmer").
Proof.
  split; [reflexivity|].
  destruct (parse_last_entry_wins
              ["hmmer:first"; "prodigal:genes"; "hmmer:last"] _ eq_refl)
    as (_ & Hlast & _).
  apply (Hlast ["hmmer:first"; "prodigal:genes"] "hmmer:last" [] "hmmer" "last");
    [reflexivity | reflexivity | constructor].
Defined.

(** ** The task factory *)

(** C4: [create_task] first constructs the instance of the stage class; it
    then returns the dummy held by the mapping under the task name of that
    instance, after printing a message that names the task and the
    substituted path, exactly when the mapping has such a key, and the
    constructed instance otherwise. *)
Theorem create_task_substitutes (E : Env) (substitutions : gmap string task)
    (cls : task_class) (args : list (option string * arg)) (d : dir) :
  let task := Instance cls args in
  create_task E substitutions cls args d
  = (Ok (match substitutions !! task_name E task with
         | Some dummy => dummy
         | None => task
         end),
     d,
     Construct task ::
     match substitutions !! task_name E task with
     | Some dummy =>
         [Print ("Substituting output for " +:+ task_name E task +:+ ": "
                 +:+ dummy_output dummy)]
     | None => []
     end).
Proof.
  unfold create_task, bind, emit, print, ret. simpl.
  destruct (substitutions !! class_task_name E cls); reflexivity.
Qed.

(** ** The driver *)

Section Claims.

Variable E : Env.

(** C5, amended: once the chain has returned normally, [main] copies its
    result; when the copy returns and cleanup is not disabled, [main] calls
    [clean()] on the four tasks of the chain, in chain order, up to the
    first call that raises, whose exception it raises; when the four calls
    have returned it runs [clean_fold], and ends as [clean_fold] ends. When
    the copy raises, [main] raises the same exception and nothing is
    cleaned; when cleanup is disabled, [main] returns after the copy. When
    the chain raises, [main] raises the same exception and neither calls
    [clean()] nor removes a directory. A [clean()] call or a directory
    removal happens in no other run. *)
Theorem cleanup_follows_normal_run a d r d' evs :
  main E a d = (r, d', evs) ->
  (forall ts e, In (RunTasksChain ts (Raise e)) evs ->
     r = Raise e /\ Forall (fun ev => is_cleanup ev = false) evs) /\
  (forall ev, In ev evs -> is_cleanup ev = true ->
     no_cleanup a = false /\ existsb is_chain_ok evs = true) /\
  (forall pre ts p post,
     evs = pre ++ RunTasksChain ts (Ok p) :: post ->
     Forall (fun ev => is_cleanup ev = false) pre /\
     length ts = 4 /\
     exists d0 dm rm dm' mid,
       run_tasks_chain E ts d0 = (Ok p, dm) /\
       mirror E a (map lower (extension a)) p dm = (rm, dm', mid) /\
       Forall (fun ev => is_cleanup ev = false) mid /\
       ((exists e, rm = Raise e /\ r = Raise e /\ d' = dm' /\ post = mid) \/
        (rm = Ok tt /\ no_cleanup a = true /\
         r = Ok tt /\ d' = dm' /\ post = mid) \/
        (rm = Ok tt /\ no_cleanup a = false /\
         exists rc dc cs,
           for_each (clean E) ts dm' = (rc, dc, cs) /\
           ((exists ts1 t ts2 e,
               ts = ts1 ++ t :: ts2 /\ rc = Raise e /\
               cs = map (fun t => Clean t (Ok tt)) ts1 ++ [Clean t (Raise e)] /\
               r = Raise e /\ d' = dc /\ post = mid ++ cs) \/
            (rc = Ok tt /\ cs = map (fun t => Clean t (Ok tt)) ts /\
             exists cf,
               clean_fold dc = (r, d', cf) /\ post = mid ++ cs ++ cf))))).
Proof.
  intros H.
  destruct (cleanup_events_inv E _ _ _ _ _ H) as [Hraise Honly].
  split; [exact Hraise|]. split; [exact Honly|].
  intros pre ts p post Hdec.
  destruct (main_after_chain E _ _ _ _ _ _ _ _ _ H Hdec)
    as (Hpre & Hlen & d0 & dm & rm & dm' & mid & Hchain & Hmirror & Hrest).
  split; [exact Hpre|]. split; [exact Hlen|].
  exists d0, dm, rm, dm', mid.
  split; [exact Hchain|]. split; [exact Hmirror|].
  split.
  { eapply Forall_class; [apply mirror_not_cleanup|].
    exact (only_mirror E _ _ _ _ _ _ _ Hmirror). }
  destruct Hrest as [Hfail | [Hoff | (Hrm & Hnc & cl & Hcl & ->)]];
    [left; exact Hfail | right; left; exact Hoff |].
  right; right. split; [exact Hrm|]. split; [exact Hnc|].
  apply bind_inv in Hcl as [(e & Hcl & ->) | (u & dc & cs & cf & Hcs & Hcf & ->)].
  - exists (Raise e), d', cl. split; [exact Hcl|]. left.
    destruct (for_each_clean_inv E _ _ _ _ _ Hcl)
      as [[[=] _] | (ts1 & t & ts2 & e' & -> & [= <-] & ->)].
    exists ts1, t, ts2, e. auto 10.
  - destruct u. exists (Ok tt), dc, cs. split; [exact Hcs|]. right.
    destruct (for_each_clean_inv E _ _ _ _ _ Hcs)
      as [[_ ->] | (ts1 & t & ts2 & e' & _ & [=] & _)].
    split; [reflexivity|]. split; [reflexivity|]. exists cf. auto.
Qed.

(** C7: when the configuration file does not exist, [main] prints a
    message and exits with status 1, and does nothing else: no file is
    opened, nothing is parsed, no task is created or run. *)
Theorem missing_config_exits a d :
  os_path_exists E (config a) = false ->
  main E a d
  = (Raise (SystemExit 1), d,
     [Print "Please, create config file using phigaro-setup script"]).
Proof.
  intros H. unfold main.
  erewrite bind_raise; [reflexivity|].
  rewrite H. reflexivity.
Qed.

(** C8: when no [-o] value is given and the lowercased list of formats is
    not exactly [['stdout']], [main] prints a message and exits with
    status 1, and does nothing else. *)
Theorem missing_output_exits a d :
  output a = VBool false ->
  map lower (extension a) <> ["stdout"] ->
  exists msg, main E a d = (Raise (SystemExit 1), d, [Print msg]).
Proof.
  intros Ho He. unfold main.
  destruct (os_path_exists E (config a)) eqn:Hex.
  - eexists. erewrite bind_ok by reflexivity.
    erewrite bind_raise; [reflexivity|].
    rewrite Ho. simpl. rewrite bool_decide_eq_false_2 by assumption.
    reflexivity.
  - eexists. erewrite bind_raise; [reflexivity|]. reflexivity.
Qed.


(** C10: two invocations whose lists of formats are equal once lowercased,
    and whose other arguments are equal, run identically: same outcome,
    same directory tree, same events, hence the same decisions on the
    output check, on the html, gff and bed options and on the copies of
    the result. *)
Theorem extension_case_insensitive a1 a2 d :
  map lower (extension a1) = map lower (extension a2) ->
  fasta_file a1 = fasta_file a2 ->
  config a1 = config a2 ->
  print_vogs a1 = print_vogs a2 ->
  output a1 = output a2 ->
  not_open a1 = not_open a2 ->
  threads a1 = threads a2 ->
  no_cleanup a1 = no_cleanup a2 ->
  substitute_output a1 = substitute_output a2 ->
  delete_shorts a1 = delete_shorts a2 ->
  mode a1 = mode a2 ->
  main E a1 d = main E a2 d.
Proof.
  intros He Hf Hc Hp Ho Hn Ht Hnc Hs Hd Hm.
  unfold main, set_options.
  rewrite He, Hf, Hc, Hp, Ho, Hn, Ht, Hnc, Hs, Hd, Hm. reflexivity.
Qed.

End Claims.

(** C5, as worded, fails: the chain returns normally and cleanup is not
    disabled, but the [.tsv] copy of the result cannot be written; [main]
    raises and no [clean()] is called, no directory removed. *)
Lemma no_cleanup_when_copy_fails :
  no_cleanup demo_args = false /\
  result_of (main readonly_env demo_args empty_scratch) = Raise OSError /\
  existsb is_chain_ok (events_of (main readonly_env demo_args empty_scratch))
  = true /\
  existsb is_cleanup (events_of (main readonly_env demo_args empty_scratch))
  = false /\
  final_dir (main readonly_env demo_args empty_scratch) = empty_scratch.
Proof. vm_compute. repeat split; reflexivity. Qed.

Lemma main_demo_run :
  main demo_env demo_args empty_scratch
  = (result_of (main demo_env demo_args empty_scratch),
     final_dir (main demo_env demo_args empty_scratch),
     events_of (main demo_env demo_args empty_scratch)).
Proof. now destruct (main demo_env demo_args empty_scratch) as [[r d] evs]. Qed.

Lemma cleanup_follows_normal_run_witness :
  exists pre ts p post,
    events_of (main demo_env demo_args empty_scratch)
    = pre ++ RunTasksChain ts (Ok p) :: post /\
    Forall (fun ev => is_cleanup ev = false) pre /\
    length ts = 4 /\
    exists mid cs cf,
      Forall (fun ev => is_cleanup ev = false) mid /\
      cs = map (fun t => Clean t (Ok tt)) ts /\
      post = mid ++ cs ++ cf.
Proof.
  assert (Hdec : exists pre ts p post,
            events_of (main demo_env demo_args empty_scratch)
            = pre ++ RunTasksChain ts (Ok p) :: post).
  { exists (firstn 8 (events_of (main demo_env demo_args empty_scratch))).
    eexists _, _, (skipn 9 (events_of (main demo_env demo_args empty_scratch))).
    reflexivity. }
  destruct Hdec as (pre & ts & p & post & Hdec).
  exists pre, ts, p, post. split; [exact Hdec|].
  destruct (cleanup_follows_normal_run demo_env demo_args empty_scratch
              _ _ _ main_demo_run) as (_ & _ & Hdone).
  destruct (Hdone pre ts p post Hdec)
    as (Hpre & Hlen & d0 & dm & rm & dm' & mid & _ & _ & Hmid & Hrest).
  split; [exact Hpre|]. split; [exact Hlen|].
  destruct Hrest
    as [(e & _ & Hr & _) | [(_ & Hnc & _) | (_ & _ & rc & dc & cs & _ & Hcs)]].
  - discriminate Hr.
  - discriminate Hnc.
  - destruct Hcs as [(ts1 & t & ts2 & e & _ & _ & _ & Hr & _)
                    | (_ & Hcs & cf & _ & Hpost)].
    + discriminate Hr.
    + exists mid, cs, cf. auto.
Defined.

Lemma missing_config_exits_witness :
  os_path_exists unconfigured_env (config demo_args) = false /\
  main unconfigured_env demo_args empty_scratch
  = (Raise (SystemExit 1), empty_scratch,
     [Print "Please, create config file using phigaro-setup script"]).
Proof.
  split; [reflexivity|].
  apply (missing_config_exits unconfigured_env demo_args empty_scratch).
  reflexivity.
Defined.

Lemma missing_output_exits_witness :
  output (demo_args_with ["HTML"; "gff"] (VBool false)) = VBool false /\
  map lower (extension (demo_args_with ["HTML"; "gff"] (VBool false)))
  <> ["stdout"] /\
  exists msg,
    main demo_env (demo_args_with ["HTML"; "gff"] (VBool false)) empty_scratch
    = (Raise (SystemExit 1), empty_scratch, [Print msg]).
Proof.
  split; [reflexivity|]. split; [discriminate|].
  apply (missing_output_exits demo_env
           (demo_args_with ["HTML"; "gff"] (VBool false)) empty_scratch);
    [reflexivity | discriminate].
Defined.


Lemma extension_case_insensitive_witness :
  map lower (extension (demo_args_with ["TSV"; "StdOut"] (VStr "out")))
  = map lower (extension (demo_args_with ["tsv"; "stdout"] (VStr "out"))) /\
  main demo_env (demo_args_with ["TSV"; "StdOut"] (VStr "out")) empty_scratch
  = main demo_env (demo_args_with ["tsv"; "stdout"] (VStr "out")) empty_scratch.
Proof.
  split; [reflexivity|].
  apply (extension_case_insensitive demo_env
           (demo_args_with ["TSV"; "StdOut"] (VStr "out"))
           (demo_args_with ["tsv"; "stdout"] (VStr "out")) empty_scratch);
    reflexivity.
Defined.

(** * Further properties *)

(** ** The substitution parser *)

(** X1: the parser returns a mapping exactly when every entry holds one
    colon, raises [ValueError] exactly when some entry holds none or several,
    and raises nothing else; no option given counts as no entry. *)
Theorem parse_succeeds_iff_single_colon subs :
  ((exists res, parse_substitute_output subs = Ok res) <->
   Forall (fun sub => occurrences colon sub = 1) (entries subs)) /\
  (parse_substitute_output subs = Raise ValueError <->
   Exists (fun sub => occurrences colon sub <> 1) (entries subs)) /\
  (forall e, parse_substitute_output subs = Raise e -> e = ValueError).
Proof.
  rewrite parse_substitute_output_entries.
  split; [apply parse_loop_ok_iff|]. split; [apply parse_loop_raise_iff|].
  intros e. apply parse_loop_raise.
Qed.

(** X2: in the mapping the parser returns, the slot of a name holds a dummy
    that carries this very name, and whose path is the part after the colon
    of an entry [name:path] of the list, taken as it is; neither the name
    nor the path holds a colon. *)
Theorem parse_slots_are_dummies subs res name t :
  parse_substitute_output subs = Ok res ->
  res !! name = Some t ->
  exists out,
    t = DummyTask out name /\
    In (name +:+ ":" +:+ out) (entries subs) /\
    contains colon name = false /\ contains colon out = false.
Proof.
  rewrite parse_substitute_output_entries. intros H Ht.
  destruct (parse_loop_slots _ _ _ H _ _ Ht) as [Hl | Hout]; [|exact Hout].
  rewrite lookup_empty in Hl. discriminate.
Qed.

Lemma parse_slots_are_dummies_witness :
  exists out,
    DummyTask "run/hmmer.out" "hmmer" = DummyTask out "hmmer" /\
    In ("hmmer" +:+ ":" +:+ out)
       (entries (Some ["prodigal:genes.faa"; "hmmer:run/hmmer.out"])) /\
    contains colon "hmmer" = false /\ contains colon out = false.
Proof.
  apply (parse_slots_are_dummies
           (Some ["prodigal:genes.faa"; "hmmer:run/hmmer.out"])
           (<["hmmer" := DummyTask "run/hmmer.out" "hmmer"]>
              (<["prodigal" := DummyTask "genes.faa" "prodigal"]> ∅)));
    reflexivity.
Defined.

(** X3: parsing a list made of two lists one after the other succeeds
    exactly when parsing each succeeds, and the mapping is then the one of
    the second list laid over the one of the first. *)
Theorem parse_concatenation l1 l2 res :
  parse_substitute_output (Some (l1 ++ l2)) = Ok res <->
  exists r1 r2,
    parse_substitute_output (Some l1) = Ok r1 /\
    parse_substitute_output (Some l2) = Ok r2 /\
    res = r2 ∪ r1.
Proof.
  rewrite !parse_substitute_output_list, parse_loop_app.
  split.
  - destruct (parse_loop l1 ∅) as [r1|e]; [|discriminate].
    rewrite parse_loop_union. destruct (parse_loop l2 ∅) as [r2|e]; [|discriminate].
    intros [= <-]. eauto.
  - intros (r1 & r2 & -> & H2 & ->). rewrite parse_loop_union, H2. reflexivity.
Qed.

(** X4: the parser returns the empty mapping exactly when it is given no
    entry, be it no list at all or an empty list. *)
Theorem no_entries_iff_empty_mapping subs :
  parse_substitute_output subs = Ok ∅ <-> entries subs = [].
Proof.
  rewrite parse_substitute_output_entries. split.
  - destruct (entries subs) as [|sub l]; [reflexivity|]. simpl.
    destruct (unpack2 (split colon sub)) as [[n o]|e]; [|discriminate].
    intros H.
    destruct (parse_loop_mono _ _ _ n H) as [t Ht].
    + rewrite lookup_insert_eq. eauto.
    + rewrite lookup_empty in Ht. discriminate.
  - intros ->. reflexivity.
Qed.

(** ** The task factory on parsed substitutions *)

Lemma create_task_result E substitutions cls args d :
  result_of (create_task E substitutions cls args d)
  = Ok (stage E substitutions cls args).
Proof.
  unfold create_task, stage, bind, emit, print, ret. simpl.
  now destruct (substitutions !! class_task_name E cls).
Qed.

(** X5: with a mapping the parser returned, [create_task] returns the
    instance of the stage class when no entry of the list carries the task
    name of the class, and otherwise the dummy of the last entry that
    carries it, built with the path of that entry and that name. *)
Theorem create_task_picks_last_entry E subs substitutions cls args d :
  parse_substitute_output subs = Ok substitutions ->
  let name := class_task_name E cls in
  (Forall (fun sub => hd EmptyString (split colon sub) <> name) (entries subs) /\
   result_of (create_task E substitutions cls args d) = Ok (Instance cls args)) \/
  (exists l1 out l2,
     entries subs = l1 ++ (name +:+ ":" +:+ out) :: l2 /\
     Forall (fun sub => hd EmptyString (split colon sub) <> name) l2 /\
     result_of (create_task E substitutions cls args d)
     = Ok (DummyTask out name)).
Proof.
  intros Hp name. rewrite create_task_result.
  destruct (stage_cases E _ _ cls args Hp)
    as [[Hnone ->] | (l1 & out & l2 & Hl & Hl2 & ->)].
  - left. auto.
  - right. exists l1, out, l2. auto.
Qed.

Lemma create_task_picks_last_entry_witness :
  (Forall (fun sub => hd EmptyString (split colon sub) <> "hmmer")
          ["hmmer:first"; "hmmer:run/hmmer.out"] /\
   result_of (create_task demo_env
                (<["hmmer" := DummyTask "run/hmmer.out" "hmmer"]>
                   (<["hmmer" := DummyTask "first" "hmmer"]> ∅))
                HmmerTask [] empty_scratch)
   = Ok (Instance HmmerTask [])) \/
  (exists l1 out l2,
     ["hmmer:first"; "hmmer:run/hmmer.out"]
     = l1 ++ ("hmmer" +:+ ":" +:+ out) :: l2 /\
     Forall (fun sub => hd EmptyString (split colon sub) <> "hmmer") l2 /\
     result_of (create_task demo_env
                  (<["hmmer" := DummyTask "run/hmmer.out" "hmmer"]>
                     (<["hmmer" := DummyTask "first" "hmmer"]> ∅))
                  HmmerTask [] empty_scratch)
     = Ok (DummyTask out "hmmer")).
Proof.
  apply (create_task_picks_last_entry demo_env
           (Some ["hmmer:first"; "hmmer:run/hmmer.out"])
           (<["hmmer" := DummyTask "run/hmmer.out" "hmmer"]>
              (<["hmmer" := DummyTask "first" "hmmer"]> ∅))
           HmmerTask [] empty_scratch).
  reflexivity.
Defined.

(** ** Further properties of the sweeper *)

(** X6: when the working directory has no directory [proc], the walk
    yields nothing, the flag stays set, and [clean_fold] raises the
    [OSError] of [os.rmdir('proc')], having changed nothing; on a
    well-formed tree this is the only way it raises. *)
Theorem clean_fold_without_proc cwd :
  (assoc "proc" (subdirs cwd) = None ->
   clean_fold cwd = (Raise OSError, cwd, [Rmdir ["proc"] (Raise OSError)])) /\
  (wf_dir cwd = true ->
   ((exists e, result_of (clean_fold cwd) = Raise e) <->
    assoc "proc" (subdirs cwd) = None)).
Proof.
  split; [apply clean_fold_no_proc|]. intros Hwf. split.
  - intros [e He].
    destruct (assoc "proc" (subdirs cwd)) as [s|] eqn:Hs; [|reflexivity].
    destruct (clean_fold_run cwd s Hwf Hs) as (s' & _ & _ & Hrun).
    rewrite Hrun in He. discriminate.
  - intros H. rewrite (clean_fold_no_proc _ H). eauto.
Qed.

(** X7: whatever the tree and however the run ends, [clean_fold] leaves
    every plain file where it is: the paths of the files of the tree are the
    same before and after. *)
Theorem clean_fold_keeps_every_file cwd top :
  file_paths top (final_dir (clean_fold cwd)) = file_paths top cwd.
Proof.
  exact (keeps_clean_fold _ _ _ _ (run_parts (clean_fold cwd)) top).
Qed.

(** X8: whatever the tree, every event of [clean_fold] is the removal of
    [proc] or of a directory below it. *)
Theorem clean_fold_removes_only_below_proc cwd :
  Forall (fun ev => exists q r, ev = Rmdir ("proc" :: q) r)
         (events_of (clean_fold cwd)).
Proof.
  eapply Forall_impl.
  - exact (only_below_clean_fold _ _ _ _ (run_parts (clean_fold cwd))).
  - intros ev. apply is_rmdir_below_inv.
Qed.

(** X9: on a well-formed tree in which [proc] is a directory, a second run
    of [clean_fold] after a first one finds nothing to do: when [proc] holds
    a file it returns normally, removes nothing and leaves the tree as the
    first run left it; when [proc] holds no file the first run removed it,
    and the second raises [OSError]. *)
Theorem clean_fold_twice cwd s :
  wf_dir cwd = true ->
  assoc "proc" (subdirs cwd) = Some s ->
  let cwd' := final_dir (clean_fold cwd) in
  (count_files s <> 0 -> clean_fold cwd' = (Ok tt, cwd', [])) /\
  (count_files s = 0 ->
   clean_fold cwd' = (Raise OSError, cwd', [Rmdir ["proc"] (Raise OSError)])).
Proof.
  intros Hwf Hs cwd'. subst cwd'.
  destruct (clean_fold_run cwd s Hwf Hs) as (s' & Hcount & Hre & Hrun).
  rewrite Hrun. unfold final_dir. cbn [fst snd].
  split; intros Hc.
  - assert (Hz : no_files s = false) by (now apply Nat.eqb_neq).
    rewrite Hz in *.
    assert (Ha : assoc "proc" (subdirs (graft "proc" s' cwd)) = Some s')
      by (apply assoc_graft; eauto).
    pose proof (framed_loop "proc" (walk [] s') true _ s' _ _ _ Ha Hre) as Hf.
    rewrite <- walk_enter, graft_graft in Hf. simpl in Hf.
    unfold clean_fold.
    erewrite bind_ok; [|unfold os_walk; rewrite Ha; reflexivity].
    rewrite (bind_ok _ _ _ _ _ _ Hf). reflexivity.
  - assert (Hz : no_files s = true) by (now apply Nat.eqb_eq).
    rewrite Hz. apply clean_fold_no_proc. simpl.
    apply assoc_remove_same.
    destruct cwd as [subs fs]. now apply wf_dir_eq in Hwf as [Hnd _].
Qed.

Lemma clean_fold_twice_witness :
  (count_files leftover_proc <> 0 ->
   clean_fold (final_dir (clean_fold leftover_tree))
   = (Ok tt, final_dir (clean_fold leftover_tree), [])) /\
  (count_files leftover_proc = 0 ->
   clean_fold (final_dir (clean_fold leftover_tree))
   = (Raise OSError, final_dir (clean_fold leftover_tree),
      [Rmdir ["proc"] (Raise OSError)])).
Proof.
  apply (clean_fold_twice leftover_tree leftover_proc); reflexivity.
Defined.

(** X10: on a well-formed tree in which [proc] is a directory, the
    directories [clean_fold] removes are, in this order, the sub-directories
    of the directories that the bottom-up walk lists before the first
    directory that holds a file, and then [proc] itself when no directory
    holds a file; every removal succeeds. *)
Theorem clean_fold_removal_order cwd s :
  wf_dir cwd = true ->
  assoc "proc" (subdirs cwd) = Some s ->
  events_of (clean_fold cwd)
  = map (fun p => Rmdir p (Ok tt))
        (doomed (walk ["proc"] s) ++ (if no_files s then [["proc"]] else [])).
Proof.
  intros Hwf Hs.
  destruct (clean_fold_run cwd s Hwf Hs) as (s' & _ & _ & Hrun).
  now rewrite Hrun.
Qed.

Lemma clean_fold_removal_order_witness :
  events_of (clean_fold leftover_tree)
  = map (fun p => Rmdir p (Ok tt))
        (doomed (walk ["proc"] leftover_proc)
         ++ (if no_files leftover_proc then [["proc"]] else [])).
Proof.
  apply (clean_fold_removal_order leftover_tree leftover_proc); reflexivity.
Defined.

(** ** Further properties of the driver *)

Section MoreDriver.

Variable E : Env.

(** X11: the configuration handed to [Context.initialize] is the loaded
    document with its [phigaro] section updated: the ten options of the
    command line are set, the value of the command line winning over the one
    of the file, the other keys of the section and the other sections are
    those of the file; the sample name ends with the identifier stored under
    [uuid], and the thread count is the one of the command line. *)
Theorem context_receives_options a d r d' evs sample cfg n r0 :
  main E a d = (r, d', evs) ->
  In (ContextInitialize sample cfg n r0) evs ->
  let ext := map lower (extension a) in
  exists cfg0 ph ph',
    In (YamlLoad (Ok cfg0)) evs /\
    cfg0 !! "phigaro" = Some ph /\
    cfg !! "phigaro" = Some ph' /\
    (forall s, s <> "phigaro" -> cfg !! s = cfg0 !! s) /\
    ph' !! "print_vogs" = Some (VBool (print_vogs a)) /\
    ph' !! "filename" = Some (VStr (fasta_file a)) /\
    ph' !! "no_html" = Some (VBool (negb (bool_decide ("html" ∈ ext)))) /\
    ph' !! "not_open" = Some (VBool (not_open a)) /\
    ph' !! "output" = Some (output a) /\
    ph' !! "uuid" = Some (VStr (uuid4_hex E)) /\
    ph' !! "delete_shorts" = Some (VBool (delete_shorts a)) /\
    ph' !! "gff" = Some (VBool (bool_decide ("gff" ∈ ext))) /\
    ph' !! "bed" = Some (VBool (bool_decide ("bed" ∈ ext))) /\
    ph' !! "mode" = Some (VStr (mode a)) /\
    (forall k, ~ In k option_names -> ph' !! k = ph !! k) /\
    sample = sample_name E (fasta_file a) +:+ "-" +:+ uuid4_hex E /\
    n = threads a.
Proof.
  intros H Hin ext.
  destruct (main_context E _ _ _ _ _ _ _ _ _ H Hin)
    as (cfg0 & ph & Hy & Hph & -> & -> & ->).
  exists cfg0, ph, (set_options E a ext ph).
  split; [exact Hy|]. split; [exact Hph|].
  split; [apply lookup_insert_eq|].
  split; [intros s Hs; now apply lookup_insert_ne|].
  unfold set_options.
  repeat (split;
          [repeat (rewrite lookup_insert_ne by discriminate);
           apply lookup_insert_eq|]).
  split; [|split; reflexivity].
  intros k Hk.
  repeat (rewrite lookup_insert_ne;
          [|intros <-; apply Hk; unfold option_names; simpl; tauto]).
  reflexivity.
Qed.

(** X12: [os.makedirs] is called only when [-o] names a file in a folder,
    that is, when the directory part of the output name is not empty, and
    that folder is not an existing directory; it is called with that
    folder, and when it raises, [main] raises the same exception. *)
Theorem makedirs_only_for_missing_folder a d r d' evs fold r0 :
  main E a d = (r, d', evs) ->
  In (Makedirs fold r0) evs ->
  (exists s, output a = VStr s /\ fold = posix_dirname E s) /\
  fold <> "" /\
  os_path_isdir E fold = false /\
  (forall e, r0 = Raise e -> r = Raise e).
Proof.
  intros H Hin. unfold main in H.
  do 6 skip (avoid is_makedirs) H Hin.
  skip_as (avoid is_makedirs) H Hin out d7 Hout.
  unfold getitem in Hout. rewrite lookup_output in Hout.
  injection Hout as <- _ _.
  match type of H with
  | bind ?blk _ _ = _ =>
      assert (Hblk : forall d0 rb db eb,
                blk d0 = (rb, db, eb) ->
                In (Makedirs fold r0) eb ->
                (exists s, output a = VStr s /\ fold = posix_dirname E s) /\
                fold <> "" /\ os_path_isdir E fold = false /\ rb = r0)
  end.
  { intros dx rb db eb Hb Hi.
    destruct (output a) as [|b|z|s]; simpl in Hb;
      unfold os_path_dirname, bind, ret, raise in Hb; simpl in Hb;
      try (injection Hb as <- <- <-; destruct Hi).
    destruct (negb (String.eqb (posix_dirname E s) "")
              && negb (os_path_isdir E (posix_dirname E s))) eqn:Hc;
      simpl in Hb.
    - unfold call_fs in Hb.
      destruct (makedirs E (posix_dirname E s) dx) as [rr dd].
      assert (Heb : eb = [Makedirs (posix_dirname E s) rr] /\ rb = rr)
        by (destruct rr; injection Hb as <- <- <-; auto).
      destruct Heb as [-> ->]. destruct Hi as [Heq | []].
      injection Heq as <- <-.
      apply andb_true_iff in Hc as [Hc1 Hc2].
      apply negb_true_iff in Hc1, Hc2. apply String.eqb_neq in Hc1.
      eauto 10.
    - injection Hb as <- <- <-. destruct Hi. }
  apply bind_inv in H as [(e & H & ->) | (u & d8 & e8 & e9 & Hm & H & ->)].
  - destruct (Hblk _ _ _ _ H Hin) as (Hs & Hf & Hd & <-).
    repeat split; auto.
  - apply in_app_or in Hin as [Hin | Hin].
    + destruct (Hblk _ _ _ _ Hm Hin) as (Hs & Hf & Hd & <-).
      repeat split; auto. discriminate.
    + exfalso. absurd_class (avoid is_makedirs) H Hin.
Qed.

(** X14: whenever the chain is run, the substitutions were parsed and the
    chain is made of four tasks, one per stage in the order preprocess,
    prodigal, hmmer, run_phigaro; each is the substitute registered under
    the task name of its stage class when there is one, that is, the dummy
    built from an entry of the list that carries this name, and the
    instance of the stage class otherwise, an instance being built on the
    tasks retained for the earlier stages, substitutes included. *)
Theorem chain_of_four_stages a d r d' evs ts rr :
  main E a d = (r, d', evs) ->
  In (RunTasksChain ts rr) evs ->
  exists subs,
    parse_substitute_output (substitute_output a) = Ok subs /\
    (let t1 := stage E subs PreprocessTask [(None, AStr (fasta_file a))] in
     let t2 := stage E subs ProdigalTask [(Some "preprocess_task", ATask t1)] in
     let t3 := stage E subs HmmerTask [(Some "prodigal_task", ATask t2)] in
     let t4 := stage E subs RunPhigaroTask
                 [(Some "prodigal_task", ATask t2);
                  (Some "hmmer_task", ATask t3)] in
     ts = [t1; t2; t3; t4]) /\
    Forall2 (fun cls t =>
               (exists args, t = Instance cls args) \/
               exists out,
                 t = DummyTask out (class_task_name E cls) /\
                 In (class_task_name E cls +:+ ":" +:+ out)
                    (entries (substitute_output a)))
            [PreprocessTask; ProdigalTask; HmmerTask; RunPhigaroTask] ts.
Proof.
  intros H Hin. unfold main in H.
  do 9 skip (avoid is_chain) H Hin.
  skip_as (avoid is_chain) H Hin subs d10 Hparse.
  unfold lift in Hparse. injection Hparse as Hparse _ _.
  skip_as (avoid is_chain) H Hin t1 d11 Ht1. apply create_task_inv in Ht1.
  skip_as (avoid is_chain) H Hin t2 d12 Ht2. apply create_task_inv in Ht2.
  skip_as (avoid is_chain) H Hin t3 d13 Ht3. apply create_task_inv in Ht3.
  skip_as (avoid is_chain) H Hin t4 d14 Ht4. apply create_task_inv in Ht4.
  assert (Hts : ts = [t1; t2; t3; t4]).
  { apply bind_inv in H as [(e & H & ->) | (p & d15 & e15 & e16 & Hm & H & ->)].
    - unfold call_fs in H. destruct (run_tasks_chain E _ d14) as [rc dc].
      injection H as _ _ <-. destruct Hin as [Heq | []]. now injection Heq.
    - apply in_app_or in Hin as [Hin | Hin].
      + unfold call_fs in Hm. destruct (run_tasks_chain E _ d14) as [rc dc].
        injection Hm as _ _ <-. destruct Hin as [Heq | []]. now injection Heq.
      + exfalso. absurd_class (avoid is_chain) H Hin. }
  assert (Hst : forall cls args,
            (exists args', stage E subs cls args = Instance cls args') \/
            exists out,
              stage E subs cls args = DummyTask out (class_task_name E cls) /\
              In (class_task_name E cls +:+ ":" +:+ out)
                 (entries (substitute_output a))).
  { intros cls args.
    destruct (stage_cases E _ _ cls args Hparse)
      as [[_ ->] | (l1 & out & l2 & Hl & _ & ->)].
    - left. eauto.
    - right. exists out. split; [reflexivity|]. rewrite Hl. apply in_elt. }
  exists subs. split; [exact Hparse|]. subst. split; [reflexivity|].
  do 4 (constructor; [apply Hst|]). constructor.
Qed.

(** X13: a [.tsv] copy is written only when [tsv] is among the lowercased
    formats, under the output name followed by [.tsv], and the standard
    output is written, and then closed, only when [stdout] is among them;
    what is written is, line for line, what was read from the file the
    chain returned. A run that returns normally has written every copy that
    was asked for. *)
Theorem mirror_copies_chain_output a d r d' evs :
  main E a d = (r, d', evs) ->
  let ext := map lower (extension a) in
  (forall name ls r0, In (WriteFile name ls r0) evs ->
     "tsv" ∈ ext /\
     (exists s, output a = VStr s /\ name = s +:+ ".tsv") /\
     exists ts p, In (RunTasksChain ts (Ok p)) evs /\ In (Open p (Ok ls)) evs) /\
  (forall ls, In (WriteStdout ls) evs ->
     "stdout" ∈ ext /\
     In CloseStdout evs /\
     exists ts p, In (RunTasksChain ts (Ok p)) evs /\ In (Open p (Ok ls)) evs) /\
  (r = Ok tt -> "tsv" ∈ ext ->
   exists name ls, In (WriteFile name ls (Ok tt)) evs) /\
  (r = Ok tt -> "stdout" ∈ ext -> exists ls, In (WriteStdout ls) evs).
Proof.
  intros H ext. split; [|split; [|split]].
  - intros name ls r0 Hin.
    destruct (main_mirror E _ _ _ _ _ (WriteFile name ls r0) H eq_refl Hin)
      as (ts & p & dm & rm & dm' & mid & Hc & Hrun & Hmid & Hincl).
    destruct (mirror_run E _ _ _ _ _ _ _ Hrun) as (Hw & _).
    destruct (Hw _ _ _ Hmid) as (Ht & Ho & Hs).
    split; [exact Ht|]. split; [exact Hs|]. exists ts, p. auto.
  - intros ls Hin.
    destruct (main_mirror E _ _ _ _ _ (WriteStdout ls) H eq_refl Hin)
      as (ts & p & dm & rm & dm' & mid & Hc & Hrun & Hmid & Hincl).
    destruct (mirror_run E _ _ _ _ _ _ _ Hrun) as (_ & Hw & _).
    destruct (Hw _ Hmid) as (Ht & Ho & Hs).
    split; [exact Ht|]. split; [auto|]. exists ts, p. auto.
  - intros -> Ht.
    destruct (main_returns E _ _ _ _ H)
      as (ts & p & dm & dm' & mid & Hc & Hrun & Hincl).
    destruct (mirror_run E _ _ _ _ _ _ _ Hrun) as (_ & _ & Hw & _).
    destruct (Hw eq_refl Ht) as (name & ls & Hin). eauto.
  - intros -> Hs.
    destruct (main_returns E _ _ _ _ H)
      as (ts & p & dm & dm' & mid & Hc & Hrun & Hincl).
    destruct (mirror_run E _ _ _ _ _ _ _ Hrun) as (_ & _ & _ & Hw).
    destruct (Hw eq_refl Hs) as (ls & Hin). eauto.
Qed.

(** X15: when the configuration file exists and loads, the check of the
    output name passes, and the loaded document has no [phigaro] section,
    [main] raises [KeyError] right after loading the document: it
    initializes no context, creates no task and changes nothing. *)
Theorem missing_phigaro_section a d f cfg :
  os_path_exists E (config a) = true ->
  truthy (output a) = true \/ map lower (extension a) = ["stdout"] ->
  open_read E (config a) d = Ok f ->
  yaml_load E f = Ok cfg ->
  cfg !! "phigaro" = None ->
  main E a d
  = (Raise KeyError, d,
     [Open (config a) (Ok f);
      LogInfo ("Using config file: " +:+ config a);
      YamlLoad (Ok cfg)]).
Proof.
  intros Hex Hout Hopen Hyaml Hph.
  assert (Hcheck : negb (truthy (output a))
                   && negb (bool_decide (map lower (extension a) = ["stdout"]))
                   = false).
  { destruct Hout as [Ho | He].
    - now rewrite Ho.
    - rewrite He, bool_decide_eq_true_2 by reflexivity. apply andb_false_r. }
  unfold main. rewrite Hex. cbv zeta. rewrite Hcheck.
  erewrite bind_ok by reflexivity.
  erewrite bind_ok by reflexivity.
  erewrite bind_ok; [|unfold call_fs; rewrite Hopen; reflexivity].
  erewrite bind_ok by reflexivity.
  erewrite bind_ok; [|unfold call_pure; rewrite Hyaml; reflexivity].
  erewrite bind_raise; [reflexivity|].
  unfold getitem. rewrite Hph. reflexivity.
Qed.

(** X17: the tasks whose construction a run records are instances of the
    stage classes, and such an instance is constructed only once
    [Context.initialize] has returned normally, the event of that call
    coming before the construction in the run, and only in a run whose
    list of substitutions was parsed. The dummies, which the parser builds,
    are not events of the run. *)
Theorem instances_follow_context a d r d' evs pre t post :
  main E a d = (r, d', evs) ->
  evs = pre ++ Construct t :: post ->
  (exists cls args, t = Instance cls args) /\
  (exists sample cfg n, In (ContextInitialize sample cfg n (Ok tt)) pre) /\
  (exists subs, parse_substitute_output (substitute_output a) = Ok subs).
Proof.
  intros H Hdec.
  assert (Hinst : exists cls args, t = Instance cls args).
  { pose proof (only_instances E a _ _ _ _ H) as Hall.
    rewrite Hdec, Forall_app, Forall_cons in Hall.
    destruct Hall as (_ & Ht & _).
    destruct t as [cls args | out name]; [eauto | discriminate]. }
  unfold main in H.
  do 8 peel_step (avoid is_construct) H Hdec.
  peel_as (avoid is_construct) H Hdec u d9 Hctx HF9.
  peel_as (avoid is_construct) H Hdec subs d10 Hparse HF10.
  unfold call_pure in Hctx. injection Hctx as Hctx _ <-.
  unfold lift in Hparse. injection Hparse as Hparse _ _.
  rewrite Hctx. destruct u.
  split; [exact Hinst|]. split; [do 3 eexists; in_trace | eauto].
Qed.

(** X16: whatever the environment and the arguments, the only calls of
    [os.rmdir] a run of [main] issues, successful or not, are for [proc] and
    for directories below it. *)
Theorem main_removes_only_below_proc a d :
  Forall (fun ev => forall p r, ev = Rmdir p r -> exists q, p = "proc" :: q)
         (events_of (main E a d)).
Proof.
  assert (Hmain : only stays_in_proc (main E a)).
  { unfold main.
    do 16 (apply only_bind; [solve_avoid | intros ?; cbv beta zeta]).
    destruct (negb (no_cleanup a)); [|apply only_ret].
    apply only_bind.
    - apply only_for_each. apply only_clean_in_proc.
    - intros _. apply only_clean_fold_in_proc. }
  eapply Forall_impl; [exact (Hmain _ _ _ _ (run_parts (main E a d)))|].
  intros ev Hev p r ->.
  change (is_rmdir_below "proc" (Rmdir p r) = true) in Hev.
  apply is_rmdir_below_inv in Hev as (q & r' & [= -> _]). eauto.
Qed.

End MoreDriver.

Lemma context_receives_options_witness :
  In (ContextInitialize "genome.fasta-0f" demo_context_config 1 (Ok tt))
     (events_of (main demo_env demo_args empty_scratch)) /\
  exists ph',
    demo_context_config !! "phigaro" = Some ph' /\
    ph' !! "filename" = Some (VStr "genome.fasta") /\
    ph' !! "no_html" = Some (VBool true) /\
    ph' !! "output" = Some (VStr "out").
Proof.
  assert (Hin : In (ContextInitialize "genome.fasta-0f" demo_context_config 1
                      (Ok tt))
                   (events_of (main demo_env demo_args empty_scratch))).
  { apply (nth_error_In _ 3). reflexivity. }
  split; [exact Hin|].
  pose proof (context_receives_options demo_env demo_args empty_scratch
                _ _ _ _ _ _ _ (run_parts _) Hin) as Hall.
  cbv zeta in Hall.
  destruct Hall as (cfg0 & ph & ph' & _ & _ & Hph & _ & _ & Hf & Hh & _ & Ho & _).
  exists ph'. auto.
Defined.

Lemma makedirs_only_for_missing_folder_witness :
  In (Makedirs "results" (Ok tt))
     (events_of (main (demo_env_for demo_config "results" false)
                      demo_args empty_scratch)) /\
  (exists s,
     output demo_args = VStr s /\
     "results" = posix_dirname (demo_env_for demo_config "results" false) s) /\
  "results" <> "" /\
  os_path_isdir (demo_env_for demo_config "results" false) "results" = false.
Proof.
  assert (Hin : In (Makedirs "results" (Ok tt))
                   (events_of (main (demo_env_for demo_config "results" false)
                                    demo_args empty_scratch))).
  { apply (nth_error_In _ 3). reflexivity. }
  split; [exact Hin|].
  destruct (makedirs_only_for_missing_folder
              (demo_env_for demo_config "results" false) demo_args
              empty_scratch _ _ _ _ _ (run_parts _) Hin) as (Hs & Hf & Hd & _).
  auto.
Defined.

Lemma chain_of_four_stages_witness :
  exists ts subs,
    In (RunTasksChain ts (Ok "proc/sample/run_phigaro.tsv"))
       (events_of (main demo_env substituted_args empty_scratch)) /\
    parse_substitute_output (substitute_output substituted_args) = Ok subs /\
    Forall2 (fun cls t =>
               (exists args, t = Instance cls args) \/
               exists out,
                 t = DummyTask out (class_task_name demo_env cls) /\
                 In (class_task_name demo_env cls +:+ ":" +:+ out)
                    (entries (substitute_output substituted_args)))
            [PreprocessTask; ProdigalTask; HmmerTask; RunPhigaroTask] ts.
Proof.
  assert (Hin : exists ts,
            In (RunTasksChain ts (Ok "proc/sample/run_phigaro.tsv"))
               (events_of (main demo_env substituted_args empty_scratch))).
  { eexists. apply (nth_error_In _ 9). reflexivity. }
  destruct Hin as [ts Hin].
  destruct (chain_of_four_stages demo_env substituted_args empty_scratch
              _ _ _ _ _ (run_parts _) Hin) as (subs & Hp & _ & Hn).
  exists ts, subs. auto.
Defined.

Lemma mirror_copies_chain_output_witness :
  In (WriteFile "out.tsv" ["scaffold_1 prophage"] (Ok tt))
     (events_of (main demo_env demo_args empty_scratch)) /\
  "tsv" ∈ map lower (extension demo_args) /\
  (exists s, output demo_args = VStr s /\ "out.tsv" = s +:+ ".tsv") /\
  exists ts p,
    In (RunTasksChain ts (Ok p))
       (events_of (main demo_env demo_args empty_scratch)) /\
    In (Open p (Ok ["scaffold_1 prophage"]))
       (events_of (main demo_env demo_args empty_scratch)).
Proof.
  assert (Hin : In (WriteFile "out.tsv" ["scaffold_1 prophage"] (Ok tt))
                   (events_of (main demo_env demo_args empty_scratch))).
  { apply (nth_error_In _ 10). reflexivity. }
  split; [exact Hin|].
  pose proof (mirror_copies_chain_output demo_env demo_args empty_scratch
                _ _ _ (run_parts _)) as Hall.
  cbv zeta in Hall. destruct Hall as (Hw & _).
  exact (Hw _ _ _ Hin).
Defined.

Lemma missing_phigaro_section_witness :
  main (demo_env_for ∅ "" true) demo_args empty_scratch
  = (Raise KeyError, empty_scratch,
     [Open "config.yml" (Ok ["scaffold_1 prophage"]);
      LogInfo "Using config file: config.yml";
      YamlLoad (Ok ∅)]).
Proof.
  apply (missing_phigaro_section (demo_env_for ∅ "" true) demo_args
           empty_scratch ["scaffold_1 prophage"] ∅);
    first [reflexivity | left; reflexivity].
Defined.

Lemma instances_follow_context_witness :
  exists pre t post,
    events_of (main demo_env substituted_args empty_scratch)
    = pre ++ Construct t :: post /\
    (exists cls args, t = Instance cls args) /\
    (exists sample cfg n, In (ContextInitialize sample cfg n (Ok tt)) pre).
Proof.
  assert (Hdec : exists pre t post,
            events_of (main demo_env substituted_args empty_scratch)
            = pre ++ Construct t :: post).
  { exists (firstn 4 (events_of (main demo_env substituted_args empty_scratch))).
    eexists _, (skipn 5 (events_of (main demo_env substituted_args empty_scratch))).
    reflexivity. }
  destruct Hdec as (pre & t & post & Hdec).
  exists pre, t, post. split; [exact Hdec|].
  destruct (instances_follow_context demo_env substituted_args empty_scratch
              _ _ _ pre t post (run_parts _) Hdec) as (Hi & Hc & _).
  auto.
Defined.

